(** * The kustomize [resource] package: a Rocq model of [api/resource/resource.go]

    A [Resource] pairs a Kubernetes document (behind the [ifc.Kunstructured]
    interface) with the bookkeeping kustomize keeps about it: the original
    name and namespace, generator options, the identities and variables that
    refer to it, and the stacks of name prefixes and suffixes.

    Layout: Go values first ([Go]), then identities ([resid]), the document
    interface, the [Resource] record with its methods, one concrete document
    implementation, and finally the properties. *)

From stdpp Require Import gmap strings list fin_maps pretty.
From Stdlib Require Import Strings.Ascii.
From Equations Require Import Equations.

#[local] Set Warnings "-clear-no-such-hyp".

#[local] Open Scope string_scope.

(* ===================================================================== *)
(** ** Go values *)
(* ===================================================================== *)

Module Go.

(** A Go slice value.  [None] is the [nil] slice, which the copy helpers of
    the package keep apart from an empty one.  No function of the package
    writes to an element in place, so the shared backing array of two
    slices is never observed and a slice is modelled by its contents. *)
Definition slice (A : Type) : Type := option (list A).

Definition elems {A} (s : slice A) : list A := default [] s.

(** [len(s)], a Go [int]. *)
Definition len {A} (s : slice A) : Z := Z.of_nat (length (elems s)).

(** [s[i]]; [None] is the run-time panic "index out of range". *)
Definition index {A} (s : slice A) (i : Z) : option A :=
  if decide (0 ≤ i < len s)%Z then elems s !! Z.to_nat i else None.

(** [append(s, x)]: the result is never [nil]. *)
Definition append {A} (s : slice A) (x : A) : slice A :=
  Some (elems s ++ [x])%list.

(** [c := make([]T, len(s)); copy(c, s)] *)
Definition make_copy {A} (s : slice A) : slice A := Some (elems s).

(** The [error] interface: a value that renders as a message. *)
Record error : Type := mkError { Error : string }.

End Go.
Import Go.

(* ===================================================================== *)
(** ** Identities (package [resid]) *)
(* ===================================================================== *)

(** Modelled from the spec: the declarations of [resid.Gvk] and [resid.ResId]
    are not part of this file.  An identity is the tuple (group, version,
    kind, name, namespace); two identities are equal iff all fields match,
    which is also Go's [==] on the struct and hence the equality of map
    keys. *)
Record Gvk : Type := mkGvk { Group : string; Version : string; Kind : string }.

Record ResId : Type := mkResId { IdGvk : Gvk; Name : string; Namespace : string }.

Definition NewResIdWithNamespace (k : Gvk) (n ns : string) : ResId :=
  {| IdGvk := k; Name := n; Namespace := ns |}.

#[global] Instance Gvk_eq_dec : EqDecision Gvk.
Proof. solve_decision. Defined.

#[global] Instance ResId_eq_dec : EqDecision ResId.
Proof. solve_decision. Defined.

Definition ResId_to_tuple (i : ResId) : string * string * string * string * string :=
  (Group (IdGvk i), Version (IdGvk i), Kind (IdGvk i), Name i, Namespace i).

Definition ResId_of_tuple (t : string * string * string * string * string) : ResId :=
  let '(g, v, k, n, ns) := t in mkResId (mkGvk g v k) n ns.

#[global] Instance ResId_countable : Countable ResId.
Proof.
  refine (inj_countable' ResId_to_tuple ResId_of_tuple _).
  intros [[g v k] n ns]. reflexivity.
Defined.

(* ===================================================================== *)
(** ** Documents *)
(* ===================================================================== *)

(** The dynamic values of a document ([interface{}] in
    [map[string]interface{}]): scalars, sequences and string-keyed
    mappings. *)
#[local] Unset Elimination Schemes.
Inductive JValue : Type :=
  | JNull
  | JBool (b : bool)
  | JInt (n : Z)
  | JStr (s : string)
  | JArr (l : list JValue)
  | JMap (m : gmap string JValue).
#[local] Set Elimination Schemes.

(** [map[string]interface{}].  Reading a [nil] map behaves like reading an
    empty one, so both are [∅]. *)
Abbreviation JObject := (gmap string JValue).

(** [map[string]string] *)
Abbreviation StringMap := (gmap string string).

(** The type assertion [v.(map[string]interface{})] on the result of a map
    read [m[key]]: [None] when the key is absent or the value has another
    dynamic type ([ok == false]). *)
Definition asMap (v : option JValue) : option JObject :=
  match v with
  | Some (JMap m) => Some m
  | _ => None
  end.

(** The methods of [ifc.Kunstructured] that [Resource] builds on.  The
    interface is declared in package [ifc]; it is a parameter here.  A setter
    mutates the document in place, so it is a function from the old document
    to the new one.  A Go result pair [(v, err)] is a pair whose second
    component is [None] for [err == nil]. *)
Class Kunstructured (K : Type) : Type := {
  Copy : K → K;
  GetGvk : K → Gvk;
  GetName : K → string;
  SetName : K → string → K;
  SetNamespace : K → string → K;
  GetLabels : K → StringMap;
  SetLabels : K → StringMap → K;
  GetAnnotations : K → StringMap;
  SetAnnotations : K → StringMap → K;
  GetString : K → string → string * option error;
  MarshalJSON : K → string * option error;
  Map : K → JObject;
  (** Modelled from the spec: [Map()] hands out the document's own top-level
      mapping, not a copy, so that an assignment through the returned map is
      an assignment in the document ("the resulting mapping fully replaces
      self's data field").  [StoreMap k m] is the document [k] once the
      mapping handed out by [Map k] has been mutated in place to [m].  That
      mapping is taken not to be [nil]: an assignment to an entry of a [nil]
      map would panic. *)
  StoreMap : K → JObject → K;
}.

(* ===================================================================== *)
(** ** Helpers of the package *)
(* ===================================================================== *)

(** [for key, value := range m { result[key] = value }] *)
Definition rangeAssign {V} (m result : gmap string V) : gmap string V :=
  map_fold (λ key value result, <[key := value]> result) result m.

(** [func mergeStringMaps(maps ...map[string]string) map[string]string] *)
Definition mergeStringMaps (maps : list StringMap) : StringMap :=
  foldl (λ result m, rangeAssign m result) ∅ maps.

(** [func mergeConfigmap(mergedTo map[string]interface{}, maps ...map[string]interface{})]

    The function returns nothing and writes [mergedTo["data"]]; the model
    returns [mergedTo] after that write. *)
Definition mergeConfigmap (mergedTo : JObject) (maps : list JObject) : JObject :=
  let mergedMap :=
    foldl (λ mergedMap m,
             match asMap (m !! "data") with
             | Some datamap => rangeAssign datamap mergedMap
             | None => mergedMap
             end) ∅ maps in
  <["data" := JMap mergedMap]> mergedTo.

(** [func copyStringSlice(s []string) []string] *)
Definition copyStringSlice (s : slice string) : slice string :=
  match s with
  | None => None
  | Some _ => make_copy s
  end.

(** The loop of [sameEndingSubarray]:
    [for i := 0; i <= compareLen-1; i++ { if a[alen-i] != b[blen-i] { return false } }; return true] *)
Equations? sameEndingLoop (a b : slice string) (alen blen compareLen i : Z)
  : option bool by wf (Z.to_nat (compareLen - i)) lt :=
sameEndingLoop a b alen blen compareLen i with decide (i ≤ compareLen - 1)%Z := {
  | left _ with index a (alen - i), index b (blen - i) := {
      | Some x, Some y with decide (x ≠ y) := {
          | left _ => Some false
          | right _ => sameEndingLoop a b alen blen compareLen (i + 1) }
      | _, _ => None }
  | right _ => Some true }.
Proof. lia. Qed.

(** [func sameEndingSubarray(a, b []string) bool]; [None] would be an index
    panic. *)
Definition sameEndingSubarray (a b : slice string) : option bool :=
  let compareLen := len b in
  let compareLen := if decide (len a < len b)%Z then len a else compareLen in
  if decide (compareLen = 0%Z) then Some true
  else
    let alen := (len a - 1)%Z in
    let blen := (len b - 1)%Z in
    sameEndingLoop a b alen blen compareLen 0%Z.

(* ===================================================================== *)
(** ** The Resource record and its methods *)
(* ===================================================================== *)

Section resource.
(** [GenArgs] stands for [types.GenArgs], declared in package [types]. *)
Context {K : Type} `{!Kunstructured K} {GenArgs : Type}.

(** [type Resource struct].  [options] is a pointer that may be [nil]; the
    package only copies and reads it. *)
Record Resource : Type := mkResource {
  kunStr : K;
  originalName : string;
  originalNs : string;
  options : option GenArgs;
  refBy : slice ResId;
  refVarNames : slice string;
  namePrefixes : slice string;
  nameSuffixes : slice string;
}.

(** Assignments to one field, [r.f = v]. *)
Definition set_kunStr (r : Resource) (k : K) : Resource :=
  mkResource k (originalName r) (originalNs r) (options r) (refBy r)
             (refVarNames r) (namePrefixes r) (nameSuffixes r).
Definition set_originalName (r : Resource) (n : string) : Resource :=
  mkResource (kunStr r) n (originalNs r) (options r) (refBy r)
             (refVarNames r) (namePrefixes r) (nameSuffixes r).
Definition set_originalNs (r : Resource) (n : string) : Resource :=
  mkResource (kunStr r) (originalName r) n (options r) (refBy r)
             (refVarNames r) (namePrefixes r) (nameSuffixes r).
Definition set_options (r : Resource) (o : option GenArgs) : Resource :=
  mkResource (kunStr r) (originalName r) (originalNs r) o (refBy r)
             (refVarNames r) (namePrefixes r) (nameSuffixes r).
Definition set_refBy (r : Resource) (s : slice ResId) : Resource :=
  mkResource (kunStr r) (originalName r) (originalNs r) (options r) s
             (refVarNames r) (namePrefixes r) (nameSuffixes r).
Definition set_refVarNames (r : Resource) (s : slice string) : Resource :=
  mkResource (kunStr r) (originalName r) (originalNs r) (options r) (refBy r)
             s (namePrefixes r) (nameSuffixes r).
Definition set_namePrefixes (r : Resource) (s : slice string) : Resource :=
  mkResource (kunStr r) (originalName r) (originalNs r) (options r) (refBy r)
             (refVarNames r) s (nameSuffixes r).
Definition set_nameSuffixes (r : Resource) (s : slice string) : Resource :=
  mkResource (kunStr r) (originalName r) (originalNs r) (options r) (refBy r)
             (refVarNames r) (namePrefixes r) s.

(** *** Methods that read or write one Resource *)

(** [func (r *Resource) GetName() string] *)
Definition Resource_GetName (r : Resource) : string := GetName (kunStr r).

(** [func (r *Resource) Map() map[string]interface{}] *)
Definition Resource_Map (r : Resource) : JObject := Map (kunStr r).

(** [func (r *Resource) SetName(n string)] *)
Definition Resource_SetName (r : Resource) (n : string) : Resource :=
  set_kunStr r (SetName (kunStr r) n).

(** [func (r *Resource) SetNamespace(n string)] *)
Definition Resource_SetNamespace (r : Resource) (n : string) : Resource :=
  set_kunStr r (SetNamespace (kunStr r) n).

(** [func (r *Resource) copyRefBy() []resid.ResId] *)
Definition copyRefBy (r : Resource) : slice ResId :=
  match refBy r with
  | None => None
  | Some _ => make_copy (refBy r)
  end.

(** [func (r *Resource) AddNamePrefix(p string)] *)
Definition AddNamePrefix (r : Resource) (p : string) : Resource :=
  set_namePrefixes r (append (namePrefixes r) p).

(** [func (r *Resource) AddNameSuffix(s string)] *)
Definition AddNameSuffix (r : Resource) (s : string) : Resource :=
  set_nameSuffixes r (append (nameSuffixes r) s).

(** [func (r *Resource) GetOutermostNamePrefix() string]; [None] would be an
    index panic. *)
Definition GetOutermostNamePrefix (r : Resource) : option string :=
  if decide (len (namePrefixes r) = 0%Z) then Some ""
  else index (namePrefixes r) (len (namePrefixes r) - 1).

(** [func (r *Resource) GetOutermostNameSuffix() string] *)
Definition GetOutermostNameSuffix (r : Resource) : option string :=
  if decide (len (nameSuffixes r) = 0%Z) then Some ""
  else index (nameSuffixes r) (len (nameSuffixes r) - 1).

(** [func (r *Resource) GetNamePrefixes() []string] *)
Definition GetNamePrefixes (r : Resource) : slice string := namePrefixes r.

(** [func (r *Resource) GetNameSuffixes() []string] *)
Definition GetNameSuffixes (r : Resource) : slice string := nameSuffixes r.

(** [func (r *Resource) OutermostPrefixSuffixEquals(o ResCtx) bool].  The
    argument is any [ResCtx]; the only implementation in the package is
    [*Resource].  [&&] evaluates its right operand only when the left one
    is true. *)
Definition OutermostPrefixSuffixEquals (r o : Resource) : option bool :=
  rp ← GetOutermostNamePrefix r;
  op ← GetOutermostNamePrefix o;
  if bool_decide (rp = op) then
    rs ← GetOutermostNameSuffix r;
    os ← GetOutermostNameSuffix o;
    Some (bool_decide (rs = os))
  else Some false.

(** [func (r *Resource) PrefixesSuffixesEquals(o ResCtx) bool] *)
Definition PrefixesSuffixesEquals (r o : Resource) : option bool :=
  match sameEndingSubarray (GetNamePrefixes r) (GetNamePrefixes o) with
  | Some true => sameEndingSubarray (GetNameSuffixes r) (GetNameSuffixes o)
  | Some false => Some false
  | None => None
  end.

(** [func (r *Resource) GetOriginalName() string] *)
Definition GetOriginalName (r : Resource) : string := originalName r.

(** [func (r *Resource) setOriginalName(n string) *Resource] *)
Definition setOriginalName (r : Resource) (n : string) : Resource :=
  set_originalName r n.

(** [func (r *Resource) GetOriginalNs() string] *)
Definition GetOriginalNs (r : Resource) : string := originalNs r.

(** [func (r *Resource) setOriginalNs(n string) *Resource] *)
Definition setOriginalNs (r : Resource) (n : string) : Resource :=
  set_originalNs r n.

(** [func (r *Resource) GetNamespace() string]: the error of [GetString] is
    dropped ([namespace, _ := ...]). *)
Definition GetNamespace (r : Resource) : string :=
  let '(namespace, _) := GetString (kunStr r) "metadata.namespace" in
  namespace.

(** [func (r *Resource) OrgId() resid.ResId] *)
Definition OrgId (r : Resource) : ResId :=
  NewResIdWithNamespace (GetGvk (kunStr r)) (GetOriginalName r) (GetOriginalNs r).

(** [func (r *Resource) CurId() resid.ResId] *)
Definition CurId (r : Resource) : ResId :=
  NewResIdWithNamespace (GetGvk (kunStr r)) (GetName (kunStr r)) (GetNamespace r).

(** [func (r *Resource) GetRefBy() []resid.ResId] *)
Definition GetRefBy (r : Resource) : slice ResId := refBy r.

(** [func (r *Resource) AppendRefBy(id resid.ResId)] *)
Definition AppendRefBy (r : Resource) (id : ResId) : Resource :=
  set_refBy r (append (refBy r) id).

(** The first loop of [ReferencesEqual]:
    [for _, ref := range o.refBy { setOther[ref] = true }] *)
Fixpoint fillOther (refs : list ResId) (setOther : gmap ResId bool)
  : gmap ResId bool :=
  match refs with
  | [] => setOther
  | ref :: refs => fillOther refs (<[ref := true]> setOther)
  end.

(** The second loop; [None] is the early [return false]. *)
Fixpoint fillSelf (refs : list ResId) (setOther setSelf : gmap ResId bool)
  : option (gmap ResId bool) :=
  match refs with
  | [] => Some setSelf
  | ref :: refs =>
      match setOther !! ref with
      | None => None
      | Some _ => fillSelf refs setOther (<[ref := true]> setSelf)
      end
  end.

(** [func (r *Resource) ReferencesEqual(o *Resource) bool] *)
Definition ReferencesEqual (r o : Resource) : bool :=
  let setSelf : gmap ResId bool := ∅ in
  let setOther : gmap ResId bool := ∅ in
  let setOther := fillOther (elems (refBy o)) setOther in
  match fillSelf (elems (refBy r)) setOther setSelf with
  | None => false
  | Some setSelf => bool_decide (size setSelf = size setOther)
  end.

(** [func (r *Resource) String() string].  [strings.TrimSpace] and the
    [String] method of [*types.GenArgs] (which accepts a [nil] receiver)
    belong to other packages and are parameters. *)
Definition Resource_String (TrimSpace : string → string)
    (GenArgs_String : option GenArgs → string) (r : Resource) : string :=
  let '(bs, err) := MarshalJSON (kunStr r) in
  match err with
  | Some err => "<" ++ Error err ++ ">"
  | None => TrimSpace bs ++ GenArgs_String (options r)
  end.

End resource.

Arguments Resource K GenArgs : clear implicits.

(* ===================================================================== *)
(** ** Methods on two Resource pointers *)
(* ===================================================================== *)

(* [Replace], [Merge] and [ResetPrimaryData] take two [*Resource] and write
   through the first.  Nothing stops a caller from passing the same pointer
   twice, so these methods run on a store of Resources: every Go statement
   reads the current store and writes it back, in the order of the source.
   A Resource owns its document (a document is never shared by two
   Resources), so the store holds Resources by value. *)

(** A [*Resource]: an address in the store. *)
Definition loc : Type := positive.

(** The Resources that pointers lead to. *)
Abbreviation heap K GenArgs := (gmap loc (Resource K GenArgs)).

Section store.
Context {K : Type} `{!Kunstructured K} {GenArgs : Type}.

(** A computation on the store; [None] is a [nil] pointer dereference. *)
Definition M (A : Type) : Type :=
  heap K GenArgs → option (A * heap K GenArgs).

#[local] Instance M_ret : MRet M := λ A a σ, Some (a, σ).

#[local] Instance M_bind : MBind M := λ A B k c σ,
  match c σ with
  | Some (a, σ') => k a σ'
  | None => None
  end.

(** [f(p)] for a method [f] that only reads [*p]. *)
Definition get {A} (p : loc) (f : Resource K GenArgs → A) : M A := λ σ,
  match σ !! p with
  | Some r => Some (f r, σ)
  | None => None
  end.

(** A statement that writes [*p] in place. *)
Definition update (p : loc) (f : Resource K GenArgs → Resource K GenArgs)
  : M unit := λ σ,
  match σ !! p with
  | Some r => Some (tt, <[p := f r]> σ)
  | None => None
  end.

(** [func (r *Resource) ResetPrimaryData(incoming *Resource)] *)
Definition ResetPrimaryData (r incoming : loc) : M unit :=
  c ← get incoming (λ i, Copy (kunStr i));
  update r (λ x, set_kunStr x c).

(** [func (r *Resource) copyOtherFields(other *Resource)] *)
Definition copyOtherFields (r other : loc) : M unit :=
  v ← get other originalName;
  update r (λ x, set_originalName x v);;
  v ← get other originalNs;
  update r (λ x, set_originalNs x v);;
  v ← get other options;
  update r (λ x, set_options x v);;
  v ← get other copyRefBy;
  update r (λ x, set_refBy x v);;
  v ← get other (λ o, copyStringSlice (refVarNames o));
  update r (λ x, set_refVarNames x v);;
  v ← get other (λ o, copyStringSlice (namePrefixes o));
  update r (λ x, set_namePrefixes x v);;
  v ← get other (λ o, copyStringSlice (nameSuffixes o));
  update r (λ x, set_nameSuffixes x v).

(** [func (r *Resource) Replace(other *Resource)] *)
Definition Replace (r other : loc) : M unit :=
  otherLabels ← get other (λ o, GetLabels (kunStr o));
  selfLabels ← get r (λ x, GetLabels (kunStr x));
  update r (λ x, set_kunStr x
    (SetLabels (kunStr x) (mergeStringMaps [otherLabels; selfLabels])));;
  otherAnnotations ← get other (λ o, GetAnnotations (kunStr o));
  selfAnnotations ← get r (λ x, GetAnnotations (kunStr x));
  update r (λ x, set_kunStr x
    (SetAnnotations (kunStr x)
       (mergeStringMaps [otherAnnotations; selfAnnotations])));;
  name ← get other Resource_GetName;
  update r (λ x, set_kunStr x (SetName (kunStr x) name));;
  namespace ← get other GetNamespace;
  update r (λ x, set_kunStr x (SetNamespace (kunStr x) namespace));;
  copyOtherFields r other.

(** [func (r *Resource) Merge(other *Resource)].  The three arguments of
    [mergeConfigmap] are evaluated first; the write to [mergedTo["data"]]
    lands in the document of [r], whose mapping [mergedTo] is. *)
Definition Merge (r other : loc) : M unit :=
  Replace r other;;
  mergedTo ← get r (λ x, Map (kunStr x));
  otherMap ← get other Resource_Map;
  selfMap ← get r Resource_Map;
  update r (λ x, set_kunStr x
    (StoreMap (kunStr x) (mergeConfigmap mergedTo [otherMap; selfMap]))).

(** Modelled from the spec: the constructor of a Resource belongs to the
    package's factory, which is not part of this file.  "Created when a
    layer's document is loaded and wrapped (OriginalIdentity snapshotted
    from the document's initial name/namespace/kind at this moment)". *)
Definition makeOne (u : K) (o : option GenArgs) : Resource K GenArgs :=
  let r := mkResource u "" "" o None None None None in
  let r := setOriginalName r (Resource_GetName r) in
  setOriginalNs r (GetNamespace r).

End store.

(** The state of the Resource at address [p] after a computation. *)
Definition after {K GenArgs A} (c : heap K GenArgs → option (A * heap K GenArgs))
    (σ : heap K GenArgs) (p : loc) : option (Resource K GenArgs) :=
  match c σ with
  | Some (_, σ') => σ' !! p
  | None => None
  end.

(* ===================================================================== *)
(** ** What [Resource] expects of a document *)
(* ===================================================================== *)

(** The facets of a document that [Replace] and [Merge] read and write: a
    setter of the interface sets its own facet and leaves the others as they
    were. *)
Record Facets : Type := mkFacets {
  f_labels : StringMap;
  f_annotations : StringMap;
  f_name : string;
  f_namespace : string;
  f_data : option JValue;
}.

Definition facets {K} `{!Kunstructured K} (k : K) : Facets :=
  {| f_labels := GetLabels k;
     f_annotations := GetAnnotations k;
     f_name := GetName k;
     f_namespace := (GetString k "metadata.namespace").1;
     f_data := Map k !! "data" |}.

Definition set_f_labels (f : Facets) (l : StringMap) : Facets :=
  mkFacets l (f_annotations f) (f_name f) (f_namespace f) (f_data f).
Definition set_f_annotations (f : Facets) (a : StringMap) : Facets :=
  mkFacets (f_labels f) a (f_name f) (f_namespace f) (f_data f).
Definition set_f_name (f : Facets) (n : string) : Facets :=
  mkFacets (f_labels f) (f_annotations f) n (f_namespace f) (f_data f).
Definition set_f_namespace (f : Facets) (ns : string) : Facets :=
  mkFacets (f_labels f) (f_annotations f) (f_name f) ns (f_data f).

Class KunstructuredLaws (K : Type) `{!Kunstructured K} : Prop := {
  facets_SetLabels (k : K) l :
    facets (SetLabels k l) = set_f_labels (facets k) l;
  facets_SetAnnotations (k : K) a :
    facets (SetAnnotations k a) = set_f_annotations (facets k) a;
  facets_SetName (k : K) n :
    facets (SetName k n) = set_f_name (facets k) n;
  facets_SetNamespace (k : K) ns :
    facets (SetNamespace k ns) = set_f_namespace (facets k) ns;
  (** The mapping stored through [Map()] is the mapping read back. *)
  Map_StoreMap (k : K) m : Map (StoreMap k m) = m;
  (** "if err, namespace is empty, so no need to check": a failed lookup
      yields the empty string next to its error. *)
  GetString_error (k : K) p s e : GetString k p = (s, Some e) → s = "";
}.

(* ===================================================================== *)
(** ** A document implementation *)
(* ===================================================================== *)

(** Modelled from the spec: the implementations of [ifc.Kunstructured] are
    not part of this file.  The document here is its own top-level mapping;
    name, namespace, labels and annotations sit under the [metadata] entry,
    group, version and kind under [apiVersion] and [kind]. *)
Module Unstruct.

Definition asString (v : option JValue) : option string :=
  match v with
  | Some (JStr s) => Some s
  | _ => None
  end.

Definition metaOf (k : JObject) : JObject := default ∅ (asMap (k !! "metadata")).

(** Setting [metadata.f]; a [metadata] entry that is not a mapping is
    replaced by a fresh one. *)
Definition putMeta (k : JObject) (f : string) (v : JValue) : JObject :=
  <["metadata" := JMap (<[f := v]> (metaOf k))]> k.

(** Removing [metadata.f]. *)
Definition dropMeta (k : JObject) (f : string) : JObject :=
  match asMap (k !! "metadata") with
  | Some m => <["metadata" := JMap (delete f m)]> k
  | None => k
  end.

(** An empty name or namespace is removed rather than stored. *)
Definition setMetaString (k : JObject) (f s : string) : JObject :=
  if decide (s = "") then dropMeta k f else putMeta k f (JStr s).

Definition getMetaString (k : JObject) (f : string) : string :=
  default "" (asString (metaOf k !! f)).

(** A mapping with a value that is not a string is not a string map. *)
Definition asStringMap (m : JObject) : StringMap :=
  if decide (map_Forall (λ _ v, is_Some (asString (Some v))) m)
  then omap (λ v, asString (Some v)) m
  else ∅.

Definition getMetaMap (k : JObject) (f : string) : StringMap :=
  match asMap (metaOf k !! f) with
  | Some m => asStringMap m
  | None => ∅
  end.

Definition setMetaMap (k : JObject) (f : string) (l : StringMap) : JObject :=
  putMeta k f (JMap (JStr <$> l)).

(** The pieces of [s] between occurrences of [sep]. *)
Fixpoint splitOn (sep : Ascii.ascii) (s : string) : list string :=
  match s with
  | EmptyString => [EmptyString]
  | String c rest =>
      if Ascii.eqb c sep then EmptyString :: splitOn sep rest
      else match splitOn sep rest with
           | f :: fs => String c f :: fs
           | [] => [String c EmptyString]
           end
  end.

Fixpoint lookupPath (fields : list string) (v : JValue) : option JValue :=
  match fields with
  | [] => Some v
  | f :: fields =>
      match v with
      | JMap m => m !! f ≫= lookupPath fields
      | _ => None
      end
  end.

Definition getString (k : JObject) (p : string) : string * option error :=
  match asString (lookupPath (splitOn "."%char p) (JMap k)) with
  | Some s => (s, None)
  | None => ("", Some (mkError ("no field named " ++ p)))
  end.

Definition getGvk (k : JObject) : Gvk :=
  let kind := default "" (asString (k !! "kind")) in
  match splitOn "/"%char (default "" (asString (k !! "apiVersion"))) with
  | [v] => mkGvk "" v kind
  | [g; v] => mkGvk g v kind
  | _ => mkGvk "" "" kind
  end.

Definition dquote : string := String (Ascii.ascii_of_nat 34) EmptyString.

Definition quoted (s : string) : string := dquote ++ s ++ dquote.

(** JSON text of a value (strings are written without escapes). *)
Fixpoint encode (v : JValue) : string :=
  match v with
  | JNull => "null"
  | JBool true => "true"
  | JBool false => "false"
  | JInt n => pretty n
  | JStr s => quoted s
  | JArr l => "[" ++ String.concat "," (encode <$> l) ++ "]"
  | JMap m =>
      "{" ++ String.concat ","
               (map_fold (λ key x acc, (quoted key ++ ":" ++ encode x) :: acc) [] m)
          ++ "}"
  end.

#[global] Instance kunstructured : Kunstructured JObject := {|
  Copy k := k;
  GetGvk := getGvk;
  GetName k := getMetaString k "name";
  SetName k n := setMetaString k "name" n;
  SetNamespace k n := setMetaString k "namespace" n;
  GetLabels k := getMetaMap k "labels";
  SetLabels k l := setMetaMap k "labels" l;
  GetAnnotations k := getMetaMap k "annotations";
  SetAnnotations k a := setMetaMap k "annotations" a;
  GetString := getString;
  MarshalJSON k := (encode (JMap k), None);
  Map k := k;
  StoreMap k m := m;
|}.

End Unstruct.

(* ===================================================================== *)
(** ** Sample resources *)
(* ===================================================================== *)

(** Two resources of a base and an overlay that define the same ConfigMap,
    used to run the methods on concrete input. *)
Module Sample.

(** Modelled from the spec: [types.GenArgs] is declared in another package;
    generation options are "a behavior enumeration {create, replace, merge}
    plus a flag indicating whether a content hash must be appended to the
    resource's name". *)
Inductive GenerationBehavior : Type :=
  | BehaviorCreate
  | BehaviorReplace
  | BehaviorMerge.

Record GenArgs : Type := mkGenArgs {
  Behavior : GenerationBehavior;
  ShouldAddHashSuffixToName : bool;
}.

Definition selfDoc : JObject :=
  {[ "apiVersion" := JStr "v1";
     "kind" := JStr "ConfigMap";
     "metadata" := JMap {[ "name" := JStr "a";
                           "labels" := JMap {[ "env" := JStr "self" ]} ]};
     "data" := JMap {[ "k1" := JStr "v1" ]} ]}.

Definition otherDoc : JObject :=
  {[ "apiVersion" := JStr "v1";
     "kind" := JStr "ConfigMap";
     "metadata" := JMap {[ "name" := JStr "cm";
                           "namespace" := JStr "prod";
                           "labels" := JMap {[ "env" := JStr "other";
                                               "team" := JStr "x" ]} ]};
     "data" := JMap {[ "k1" := JStr "old"; "k2" := JStr "v2" ]} ]}.

(** A document without a ["data"] entry. *)
Definition plainDoc : JObject :=
  {[ "apiVersion" := JStr "apps/v1";
     "kind" := JStr "Deployment";
     "metadata" := JMap {[ "name" := JStr "web" ]} ]}.

Definition deployment : ResId :=
  NewResIdWithNamespace (mkGvk "apps" "v1" "Deployment") "web" "prod".

Definition self : Resource JObject GenArgs :=
  makeOne selfDoc (Some (mkGenArgs BehaviorMerge false)).

Definition other : Resource JObject GenArgs :=
  AppendRefBy
    (AddNameSuffix
       (AddNamePrefix (makeOne otherDoc (Some (mkGenArgs BehaviorCreate true)))
                      "p-")
       "-s")
    deployment.

Definition plain : Resource JObject GenArgs := makeOne plainDoc None.

Definition bare : Resource JObject GenArgs :=
  makeOne {[ "kind" := JStr "Namespace" ]} None.

(** [self] lives at address 1, [other] at 2, [plain] at 3, [bare] at 4. *)
Definition store : heap JObject GenArgs :=
  {[ 1%positive := self; 2%positive := other; 3%positive := plain;
     4%positive := bare ]}.

(** Stacks whose outermost entry is blank in the two possible ways. *)
Definition emptyStacks : Resource JObject GenArgs := plain.

Definition blankPushed : Resource JObject GenArgs :=
  AddNameSuffix (AddNamePrefix (AddNamePrefix plain "x") "") "".

End Sample.

(* ===================================================================== *)
(** ** Further methods of the package *)
(* ===================================================================== *)

Section more_methods.
Context {K : Type} `{!Kunstructured K} {GenArgs : Type}.
#[local] Existing Instance M_ret.
#[local] Existing Instance M_bind.

(** [&Resource{...}]: a new Resource, at an address that is not in use. *)
Definition alloc (x : Resource K GenArgs) : M loc := λ σ,
  let p := fresh (dom σ) in
  Some (p, <[p := x]> σ).

(** [func (r *Resource) DeepCopy() *Resource].  The composite literal sets
    [kunStr] and leaves every other field at its zero value. *)
Definition DeepCopy (r : loc) : M loc :=
  c ← get r (λ x, Copy (kunStr x));
  rc ← alloc (mkResource c "" "" None None None None None);
  copyOtherFields rc r;;
  mret rc.

(** [func (r *Resource) KunstructEqual(o *Resource) bool].
    [reflect.DeepEqual] on two documents belongs to the Go library and to
    the document implementation; it is a parameter. *)
Definition KunstructEqual (DeepEqual : K → K → bool)
    (r o : Resource K GenArgs) : bool :=
  DeepEqual (kunStr r) (kunStr o).

(** [func (r *Resource) Equals(o *Resource) bool] *)
Definition Equals (DeepEqual : K → K → bool)
    (r o : Resource K GenArgs) : bool :=
  ReferencesEqual r o && DeepEqual (kunStr r) (kunStr o).

(** [func (r *Resource) SetOptions(o *types.GenArgs)] *)
Definition SetOptions (r : Resource K GenArgs) (o : option GenArgs)
  : Resource K GenArgs :=
  set_options r o.

(** [func (r *Resource) NeedHashSuffix() bool].  The method
    [ShouldAddHashSuffixToName] of [*types.GenArgs] is a parameter; it is
    called only on a pointer that is not [nil]. *)
Definition NeedHashSuffix (ShouldAddHashSuffixToName : GenArgs → bool)
    (r : Resource K GenArgs) : bool :=
  match options r with
  | None => false
  | Some g => ShouldAddHashSuffixToName g
  end.

(** [func (r *Resource) GetRefVarNames() []string] *)
Definition GetRefVarNames (r : Resource K GenArgs) : slice string :=
  refVarNames r.

(** [func (r *Resource) AppendRefVarName(variable types.Var)]; of the
    variable only its [Name] is read. *)
Definition AppendRefVarName (r : Resource K GenArgs) (variableName : string)
  : Resource K GenArgs :=
  set_refVarNames r (append (refVarNames r) variableName).

End more_methods.

(** The entry a name stack shows as its outermost one. *)
Definition outermost (s : slice string) : string := default "" (last (elems s)).

(** Among [maps], the binding of [key] that is not overwritten by a later
    map: the map at index [i] binds [key] to [v] and no map after it binds
    [key]. *)
Definition lastBinding {V} (maps : list (gmap string V)) (key : string) (v : V)
  : Prop :=
  ∃ i m, maps !! i = Some m ∧ m !! key = Some v ∧
         ∀ j m', i < j → maps !! j = Some m' → m' !! key = None.

(* ===================================================================== *)
(** ** Specification-side notions *)
(* ===================================================================== *)

(** The ending-subsequence match in the words of the specification: with [k]
    the smaller of the two lengths, either [k = 0] or
    [A[la-1-i] == B[lb-1-i]] for every [i] in [[0, k)]. *)
Definition endingMatch (A B : list string) : Prop :=
  let k := length A `min` length B in
  k = 0 ∨ ∀ i, i < k → A !! (length A - 1 - i) = B !! (length B - 1 - i).

(** The same, as an equation between the last [k] elements. *)
Definition lastElems {A} (k : nat) (l : list A) : list A := drop (length l - k) l.

(** The union of two mappings in which the entries of [winner] win on a key
    that both bind. *)
Definition overlaid {V} (winner loser merged : gmap string V) : Prop :=
  ∀ key, merged !! key =
         match winner !! key with
         | Some v => Some v
         | None => loser !! key
         end.

(** The ["data"] sub-mapping of a document; a document without a mapping
    under ["data"] contributes nothing. *)
Definition dataOf (m : JObject) : JObject := default ∅ (asMap (m !! "data")).

(** A name stack whose outermost entry reads as the empty string: it is
    empty, or the element pushed last is the empty string. *)
Definition blankTop (s : slice string) : Prop :=
  elems s = [] ∨ last (elems s) = Some "".

(* ===================================================================== *)
(** ** Properties *)
(* ===================================================================== *)

(** *** Slices *)

Lemma index_in_range {A} (s : slice A) (i : Z) :
  (0 ≤ i < len s)%Z → index s i = elems s !! Z.to_nat i ∧ is_Some (index s i).
Proof.
  intros Hi. unfold index. rewrite decide_True by done. split; [done|].
  apply lookup_lt_is_Some. unfold len in Hi. lia.
Qed.

(** *** The ending-subsequence match *)

Lemma sameEndingLoop_spec (a b : slice string) (compareLen : Z) (n : nat) :
  (compareLen ≤ len a)%Z → (compareLen ≤ len b)%Z →
  ∀ i : Z, (0 ≤ i)%Z → n = Z.to_nat (compareLen - i) →
  ∃ res, sameEndingLoop a b (len a - 1) (len b - 1) compareLen i = Some res ∧
         (res = true ↔
          ∀ j : Z, (i ≤ j < compareLen)%Z →
                   index a (len a - 1 - j) = index b (len b - 1 - j)).
Proof.
  intros Ha Hb. induction n as [|n IH]; intros i Hi Hn.
  - simp sameEndingLoop. destruct (decide (i ≤ compareLen - 1)%Z); [lia|].
    simpl. exists true. split; [done|]. split; [|done]. intros _ j Hj. lia.
  - simp sameEndingLoop. destruct (decide (i ≤ compareLen - 1)%Z) as [Hle|]; [|lia].
    simpl.
    destruct (index_in_range a (len a - 1 - i)) as [Hax [x Hx]]; [lia|].
    destruct (index_in_range b (len b - 1 - i)) as [Hbx [y Hy]]; [lia|].
    rewrite Hx. simp sameEndingLoop. rewrite Hy. simp sameEndingLoop.
    destruct (decide (x ≠ y)) as [Hne|Heq]; simpl.
    + exists false. split; [done|]. split; [done|]. intros Hall.
      specialize (Hall i ltac:(lia)). congruence.
    + apply dec_stable in Heq. subst y.
      destruct (IH (i + 1)%Z) as (res & Hres & Hiff); [lia|lia|].
      exists res. split; [done|]. rewrite Hiff. split.
      * intros Hall j Hj. destruct (decide (j = i)) as [->|]; [congruence|].
        apply Hall. lia.
      * intros Hall j Hj. apply Hall. lia.
Qed.

Lemma index_from_end {A} (s : slice A) (i : nat) :
  i < length (elems s) →
  index s (len s - 1 - Z.of_nat i) = elems s !! (length (elems s) - 1 - i).
Proof.
  intros Hi. destruct (index_in_range s (len s - 1 - Z.of_nat i)) as [-> _].
  { unfold len. lia. }
  f_equal. unfold len. lia.
Qed.

Lemma sameEndingSubarray_spec (a b : slice string) :
  ∃ res, sameEndingSubarray a b = Some res ∧
         (res = true ↔ endingMatch (elems a) (elems b)).
Proof.
  unfold sameEndingSubarray, endingMatch.
  set (k := length (elems a) `min` length (elems b)).
  set (compareLen := if decide (len a < len b)%Z then len a else len b).
  assert (Hk : compareLen = Z.of_nat k).
  { unfold compareLen, k, len. case_decide; lia. }
  simpl. fold compareLen. destruct (decide (compareLen = 0%Z)) as [H0|H0].
  { exists true. split; [done|]. split; [|done]. intros _. left. lia. }
  destruct (sameEndingLoop_spec a b compareLen (Z.to_nat compareLen))
    with (i := 0%Z) as (res & Hres & Hiff).
  { unfold len in *. lia. } { unfold len in *. lia. } { done. } { lia. }
  exists res. split; [done|]. rewrite Hiff. split.
  - intros Hall. right. intros i Hi.
    rewrite <- !index_from_end by lia. apply Hall. lia.
  - intros [Hz|Hall]; [lia|]. intros j Hj.
    specialize (Hall (Z.to_nat j) ltac:(lia)).
    rewrite <- !index_from_end in Hall by lia.
    by replace (Z.of_nat (Z.to_nat j)) with j in Hall by lia.
Qed.

Lemma endingMatch_lastElems (A B : list string) :
  endingMatch A B ↔
  lastElems (length A `min` length B) A = lastElems (length A `min` length B) B.
Proof.
  unfold endingMatch, lastElems. set (k := length A `min` length B).
  assert ((k ≤ length A)%nat ∧ (k ≤ length B)%nat) as [HA HB] by (unfold k; lia).
  split.
  - intros H. apply list_eq. intros i. rewrite !lookup_drop.
    destruct (decide (i < k)) as [Hi|Hi].
    + destruct H as [H|H]; [lia|]. specialize (H (k - 1 - i) ltac:(lia)).
      by replace (length A - 1 - (k - 1 - i)) with (length A - k + i) in H by lia;
         replace (length B - 1 - (k - 1 - i)) with (length B - k + i) in H by lia.
    + rewrite !lookup_ge_None_2 by lia. done.
  - intros H. right. intros i Hi.
    assert (Hl := f_equal (λ l, l !! (k - 1 - i)) H). simpl in Hl.
    rewrite !lookup_drop in Hl.
    by replace (length A - k + (k - 1 - i)) with (length A - 1 - i) in Hl by lia;
       replace (length B - k + (k - 1 - i)) with (length B - 1 - i) in Hl by lia.
Qed.

Example sameEnding_shorter_first :
  sameEndingSubarray (Some ["p1"]) (Some ["p0"; "p1"]) = Some true.
Proof. reflexivity. Qed.

Example sameEnding_shorter_second :
  sameEndingSubarray (Some ["p1"; "p2"]) (Some ["p1"]) = Some false.
Proof. reflexivity. Qed.

Section name_stacks.
Context {K : Type} `{!Kunstructured K} {GenArgs : Type}.
Implicit Types r o : Resource K GenArgs.

(** C1.  [PrefixesSuffixesEquals] always returns, and it returns true
    exactly when the prefix stacks and the suffix stacks each pass the
    ending-subsequence match: with [k] the smaller length, [k = 0] or the
    last [k] elements agree one by one from the end backward.  With
    prefixes [["p1"]] against [["p0"; "p1"]] the prefixes match, so the
    answer is that of the suffixes; with [["p1"; "p2"]] against [["p1"]]
    the answer is false. *)
Theorem PrefixesSuffixesEquals_ending_match :
  (∀ r o, ∃ res,
      PrefixesSuffixesEquals r o = Some res ∧
      (res = true ↔
       endingMatch (elems (namePrefixes r)) (elems (namePrefixes o)) ∧
       endingMatch (elems (nameSuffixes r)) (elems (nameSuffixes o)))) ∧
  (∀ r o,
      sameEndingSubarray (Some ["p1"]) (Some ["p0"; "p1"]) = Some true ∧
      PrefixesSuffixesEquals (set_namePrefixes r (Some ["p1"]))
                             (set_namePrefixes o (Some ["p0"; "p1"])) =
      sameEndingSubarray (nameSuffixes r) (nameSuffixes o)) ∧
  (∀ r o,
      PrefixesSuffixesEquals (set_namePrefixes r (Some ["p1"; "p2"]))
                             (set_namePrefixes o (Some ["p1"])) = Some false).
Proof.
  split; [|split].
  - intros r o. unfold PrefixesSuffixesEquals, GetNamePrefixes, GetNameSuffixes.
    destruct (sameEndingSubarray_spec (namePrefixes r) (namePrefixes o))
      as (p & -> & Hp).
    destruct (sameEndingSubarray_spec (nameSuffixes r) (nameSuffixes o))
      as (q & Hq & Hs).
    destruct p.
    + exists q. split; [done|]. rewrite Hs. intuition.
    + exists false. split; [done|]. split; [done|].
      intros [Hpre _]. apply Hp in Hpre. done.
  - intros r o. split; [apply sameEnding_shorter_first|].
    unfold PrefixesSuffixesEquals, GetNamePrefixes, GetNameSuffixes. simpl.
    by rewrite sameEnding_shorter_first.
  - intros r o.
    unfold PrefixesSuffixesEquals, GetNamePrefixes, GetNameSuffixes. simpl.
    by rewrite sameEnding_shorter_second.
Qed.

Lemma index_last (s : slice string) :
  len s ≠ 0%Z → index s (len s - 1) = last (elems s).
Proof.
  intros Hne. destruct (index_in_range s (len s - 1)) as [-> _].
  { unfold len in *. lia. }
  rewrite last_lookup. f_equal. unfold len. lia.
Qed.

Lemma outermost_blank (s : slice string) :
  blankTop s →
  (if decide (len s = 0%Z) then Some "" else index s (len s - 1)) = Some "".
Proof.
  intros Hs. case_decide as Hlen; [done|].
  rewrite index_last by done. destruct Hs as [Hnil|Hlast]; [|done].
  unfold len in Hlen. rewrite Hnil in Hlen. done.
Qed.

(** C10.  [GetOutermostNamePrefix] and [GetOutermostNameSuffix] return the
    empty string when their stack is empty and also when the element
    pushed last is the empty string; two Resources whose stacks are each
    of one of these two kinds therefore pass
    [OutermostPrefixSuffixEquals]. *)
Theorem outermost_blank_indistinguishable :
  (∀ r, blankTop (namePrefixes r) → GetOutermostNamePrefix r = Some "") ∧
  (∀ r, blankTop (nameSuffixes r) → GetOutermostNameSuffix r = Some "") ∧
  (∀ r p, blankTop (namePrefixes (AddNamePrefix r p)) ↔ p = "") ∧
  (∀ r s, blankTop (nameSuffixes (AddNameSuffix r s)) ↔ s = "") ∧
  (∀ r o,
      blankTop (namePrefixes r) → blankTop (namePrefixes o) →
      blankTop (nameSuffixes r) → blankTop (nameSuffixes o) →
      OutermostPrefixSuffixEquals r o = Some true).
Proof.
  assert (Hpush : ∀ (s : slice string) x, blankTop (append s x) ↔ x = "").
  { intros s x. unfold blankTop, append. simpl. rewrite last_snoc. split.
    - intros [Hnil|Hx]; [by destruct (elems s)|congruence].
    - intros ->. by right. }
  split; [|split; [|split; [|split]]].
  - intros r Hr. by apply outermost_blank.
  - intros r Hr. by apply outermost_blank.
  - intros r p. apply Hpush.
  - intros r s. apply Hpush.
  - intros r o Hrp Hop Hrs Hos. unfold OutermostPrefixSuffixEquals.
    unfold GetOutermostNamePrefix, GetOutermostNameSuffix.
    rewrite !outermost_blank by done. reflexivity.
Qed.

End name_stacks.

(** *** Referrers *)

Section references.
Context {K : Type} `{!Kunstructured K} {GenArgs : Type}.
Implicit Types r o : Resource K GenArgs.

Lemma fillOther_dom (refs : list ResId) (setOther : gmap ResId bool) :
  dom (fillOther refs setOther) = list_to_set refs ∪ dom setOther.
Proof.
  revert setOther. induction refs as [|ref refs IH]; intros setOther; simpl.
  - set_solver.
  - rewrite IH, dom_insert_L. set_solver.
Qed.

Lemma fillSelf_dom (refs : list ResId) (setOther setSelf : gmap ResId bool) :
  match fillSelf refs setOther setSelf with
  | Some s =>
      list_to_set refs ⊆ dom setOther ∧ dom s = list_to_set refs ∪ dom setSelf
  | None => ¬ (list_to_set refs ⊆@{gset ResId} dom setOther)
  end.
Proof.
  revert setSelf. induction refs as [|ref refs IH]; intros setSelf; simpl.
  - set_solver.
  - destruct (setOther !! ref) as [b|] eqn:Href.
    + specialize (IH (<[ref := true]> setSelf)).
      assert (ref ∈ dom setOther) by (apply elem_of_dom; eauto).
      destruct (fillSelf refs setOther (<[ref:=true]> setSelf)).
      * destruct IH as [Hsub Hdom]. rewrite Hdom, dom_insert_L. set_solver.
      * set_solver.
    + apply not_elem_of_dom in Href. set_solver.
Qed.

Lemma ReferencesEqual_sets r o :
  ReferencesEqual r o = true ↔
  list_to_set (elems (refBy r)) =@{gset ResId} list_to_set (elems (refBy o)).
Proof.
  unfold ReferencesEqual.
  pose proof (fillOther_dom (elems (refBy o)) ∅) as Hother.
  pose proof (fillSelf_dom (elems (refBy r)) (fillOther (elems (refBy o)) ∅) ∅)
    as Hself.
  rewrite dom_empty_L, union_empty_r_L in Hother.
  destruct (fillSelf _ _ _) as [setSelf|].
  - destruct Hself as [Hsub Hdom].
    rewrite dom_empty_L, union_empty_r_L in Hdom. rewrite Hother in Hsub.
    rewrite bool_decide_eq_true, <- !size_dom, Hdom, Hother. split.
    + intros Hsize. apply set_subseteq_size_eq; [done|lia].
    + by intros ->.
  - rewrite Hother in Hself. split; [done|]. intros Heq. destruct Hself.
    by rewrite Heq.
Qed.

(** C4.  [ReferencesEqual] is true exactly when the two referred-by lists
    hold the same identities, whatever their order and however often an
    identity is repeated; [[A; B; A]] and [[B; A]] are equal. *)
Theorem ReferencesEqual_set_equality :
  (∀ r o,
      ReferencesEqual r o = true ↔
      ∀ id, id ∈ elems (refBy r) ↔ id ∈ elems (refBy o)) ∧
  (∀ r o A B,
      ReferencesEqual (set_refBy r (Some [A; B; A]))
                      (set_refBy o (Some [B; A])) = true).
Proof.
  assert (Hmain : ∀ r o,
             ReferencesEqual r o = true ↔
             ∀ id, id ∈ elems (refBy r) ↔ id ∈ elems (refBy o)).
  { intros r o. rewrite ReferencesEqual_sets, set_eq.
    by setoid_rewrite elem_of_list_to_set. }
  split; [done|]. intros r o A B. apply Hmain. simpl. intros id.
  rewrite !elem_of_cons, elem_of_nil. tauto.
Qed.

End references.

(** *** Merging maps *)

Lemma rangeAssign_union {V} (m result : gmap string V) :
  rangeAssign m result = m ∪ result.
Proof.
  unfold rangeAssign.
  apply (map_fold_weak_ind (λ acc m', acc = m' ∪ result)).
  - by rewrite (left_id_L ∅ (∪)).
  - intros key value m' acc _ ->. by rewrite insert_union_l.
Qed.

Lemma overlaid_union {V} (winner loser : gmap string V) :
  overlaid winner loser (winner ∪ loser).
Proof.
  intros key. rewrite lookup_union.
  by destruct (winner !! key), (loser !! key).
Qed.

Lemma overlaid_unique {V} (winner loser m1 m2 : gmap string V) :
  overlaid winner loser m1 → overlaid winner loser m2 → m1 = m2.
Proof. intros H1 H2. apply map_eq. intros key. by rewrite H1, H2. Qed.

Lemma mergeStringMaps_pair (other self : StringMap) :
  mergeStringMaps [other; self] = self ∪ other.
Proof.
  unfold mergeStringMaps. simpl. rewrite !rangeAssign_union.
  by rewrite (right_id_L ∅ (∪)).
Qed.

Lemma mergedMap_step (mergedMap m : JObject) :
  match asMap (m !! "data") with
  | Some datamap => rangeAssign datamap mergedMap
  | None => mergedMap
  end = dataOf m ∪ mergedMap.
Proof.
  unfold dataOf. destruct (asMap (m !! "data")); simpl.
  - apply rangeAssign_union.
  - by rewrite (left_id_L ∅ (∪)).
Qed.

Lemma mergeConfigmap_pair (mergedTo other self : JObject) :
  mergeConfigmap mergedTo [other; self] =
  <["data" := JMap (dataOf self ∪ dataOf other)]> mergedTo.
Proof.
  unfold mergeConfigmap. simpl. rewrite !mergedMap_step.
  by rewrite (right_id_L ∅ (∪)).
Qed.

(** *** Documents *)

Section facets.
Context {K : Type} `{!Kunstructured K} {GenArgs : Type}.
Implicit Types (k : K) (r : Resource K GenArgs).

Lemma GetLabels_facets k : GetLabels k = f_labels (facets k).
Proof. reflexivity. Qed.
Lemma GetAnnotations_facets k : GetAnnotations k = f_annotations (facets k).
Proof. reflexivity. Qed.
Lemma GetName_facets k : GetName k = f_name (facets k).
Proof. reflexivity. Qed.
Lemma Map_data_facets k : Map k !! "data" = f_data (facets k).
Proof. reflexivity. Qed.
Lemma GetString_namespace_facets k :
  (GetString k "metadata.namespace").1 = f_namespace (facets k).
Proof. reflexivity. Qed.
Lemma GetNamespace_facets r : GetNamespace r = f_namespace (facets (kunStr r)).
Proof. unfold GetNamespace. simpl. by destruct (GetString _ _). Qed.

Lemma copyStringSlice_id (s : slice string) : copyStringSlice s = s.
Proof. by destruct s. Qed.
Lemma copyRefBy_id r : copyRefBy r = refBy r.
Proof. unfold copyRefBy. by destruct (refBy r). Qed.

End facets.

(** Rewrites every observation of a document into a projection of its facets
    and pushes the facets through the setters, until nothing changes. *)
Ltac facets_step :=
  rewrite ?GetNamespace_facets; unfold Resource_GetName, Resource_Map; simpl;
  rewrite ?GetLabels_facets, ?GetAnnotations_facets, ?GetName_facets,
    ?Map_data_facets, ?GetString_namespace_facets;
  rewrite ?facets_SetLabels, ?facets_SetAnnotations, ?facets_SetName,
    ?facets_SetNamespace;
  simpl.

Ltac facets_norm := repeat (progress facets_step).

(** *** Running statements on the store *)

Section store_facts.
Context {K : Type} `{!Kunstructured K} {GenArgs : Type}.
Implicit Types (σ : heap K GenArgs) (p r o : loc).
#[local] Existing Instance M_bind.

Lemma get_ok {A} σ p x (f : Resource K GenArgs → A) :
  σ !! p = Some x → get p f σ = Some (f x, σ).
Proof. intros Hp. unfold get. by rewrite Hp. Qed.

Lemma update_ok σ p x f :
  σ !! p = Some x → update p f σ = Some (tt, <[p := f x]> σ).
Proof. intros Hp. unfold update. by rewrite Hp. Qed.

Lemma bind_get {A B} σ p x (f : Resource K GenArgs → A) (k : A → M B) :
  σ !! p = Some x → (get p f ≫= k) σ = k (f x) σ.
Proof. intros Hp. unfold mbind, M_bind. by rewrite (get_ok _ _ x). Qed.

Lemma bind_update {B} σ p x f (k : unit → M B) :
  σ !! p = Some x → (update p f ≫= k) σ = k tt (<[p := f x]> σ).
Proof. intros Hp. unfold mbind, M_bind. by rewrite (update_ok _ _ x). Qed.

End store_facts.

(** Solves a lookup in a store that is a chain of writes over known cells. *)
Ltac store_lookup :=
  rewrite ?lookup_insert_eq, ?lookup_insert_ne by done;
  first [ reflexivity | eassumption ].

(** Runs the next statement of a computation on the store. *)
Ltac store_step :=
  first
    [ erewrite bind_get by store_lookup
    | erewrite bind_update by store_lookup
    | erewrite get_ok by store_lookup
    | erewrite update_ok by store_lookup ];
  rewrite ?insert_insert_eq.

Section combinators.
Context {K : Type} `{!Kunstructured K} `{!KunstructuredLaws K} {GenArgs : Type}.
Implicit Types (σ : heap K GenArgs) (r o : loc).
Implicit Types self other : Resource K GenArgs.
#[local] Existing Instance M_bind.

(** C8.  [ResetPrimaryData] puts a copy of the incoming document in
    place of the receiver's document and leaves every provenance field of
    the receiver as it was; nothing else in the store changes. *)
Theorem ResetPrimaryData_frame σ r o self incoming :
  σ !! r = Some self → σ !! o = Some incoming →
  ∃ self',
    ResetPrimaryData r o σ = Some (tt, <[r := self']> σ) ∧
    kunStr self' = Copy (kunStr incoming) ∧
    originalName self' = originalName self ∧
    originalNs self' = originalNs self ∧
    options self' = options self ∧
    refBy self' = refBy self ∧
    refVarNames self' = refVarNames self ∧
    namePrefixes self' = namePrefixes self ∧
    nameSuffixes self' = nameSuffixes self.
Proof.
  intros Hr Ho. unfold ResetPrimaryData.
  repeat store_step. eexists. split; [reflexivity|]. simpl. done.
Qed.

Lemma copyOtherFields_ok σ r o self other :
  σ !! r = Some self → σ !! o = Some other →
  copyOtherFields r o σ =
  Some (tt, <[r := mkResource (kunStr self) (originalName other)
                     (originalNs other) (options other) (refBy other)
                     (refVarNames other) (namePrefixes other)
                     (nameSuffixes other)]> σ).
Proof.
  intros Hr Ho. unfold copyOtherFields.
  destruct (decide (r = o)) as [->|Hne].
  - assert (self = other) as -> by congruence. clear Ho.
    repeat store_step. simpl.
    by rewrite !copyStringSlice_id, copyRefBy_id.
  - repeat store_step. simpl.
    by rewrite !copyStringSlice_id, copyRefBy_id.
Qed.

(** What [Replace] leaves in the store: the provenance of [other], and the
    document of [self] with four facets rewritten. *)
Lemma Replace_ok σ r o self other :
  σ !! r = Some self → σ !! o = Some other →
  ∃ k',
    Replace r o σ =
    Some (tt, <[r := mkResource k' (originalName other) (originalNs other)
                        (options other) (refBy other) (refVarNames other)
                        (namePrefixes other) (nameSuffixes other)]> σ) ∧
    facets k' =
    mkFacets (GetLabels (kunStr self) ∪ GetLabels (kunStr other))
             (GetAnnotations (kunStr self) ∪ GetAnnotations (kunStr other))
             (Resource_GetName other) (GetNamespace other)
             (Map (kunStr self) !! "data").
Proof.
  intros Hr Ho. unfold Replace.
  destruct (decide (r = o)) as [->|Hne].
  - assert (self = other) as -> by congruence. clear Ho.
    repeat store_step.
    erewrite copyOtherFields_ok by store_lookup.
    rewrite insert_insert_eq. simpl.
    eexists. split; [reflexivity|].
    facets_norm. by rewrite !mergeStringMaps_pair.
  - repeat store_step.
    erewrite copyOtherFields_ok by store_lookup.
    rewrite insert_insert_eq. simpl.
    eexists. split; [reflexivity|].
    facets_norm. by rewrite !mergeStringMaps_pair.
Qed.

(** C2.  After [Replace] the labels of [self] are the union of the labels
    of [other] and of [self] with the value of [self] on a key both bind,
    and so are the annotations; name and namespace are those of [other];
    and the original name and namespace, the options, the referred-by
    list, the variable list and both name stacks are those of [other]. *)
Theorem Replace_spec σ r o self other :
  σ !! r = Some self → σ !! o = Some other →
  ∃ self',
    Replace r o σ = Some (tt, <[r := self']> σ) ∧
    overlaid (GetLabels (kunStr self)) (GetLabels (kunStr other))
             (GetLabels (kunStr self')) ∧
    overlaid (GetAnnotations (kunStr self)) (GetAnnotations (kunStr other))
             (GetAnnotations (kunStr self')) ∧
    Resource_GetName self' = Resource_GetName other ∧
    GetNamespace self' = GetNamespace other ∧
    originalName self' = originalName other ∧
    originalNs self' = originalNs other ∧
    options self' = options other ∧
    refBy self' = refBy other ∧
    refVarNames self' = refVarNames other ∧
    namePrefixes self' = namePrefixes other ∧
    nameSuffixes self' = nameSuffixes other.
Proof.
  intros Hr Ho.
  destruct (Replace_ok σ r o self other Hr Ho) as (k' & Hrun & Hk').
  eexists. split; [exact Hrun|].
  rewrite (GetNamespace_facets (mkResource k' _ _ _ _ _ _ _)).
  change (GetLabels (kunStr (mkResource k' _ _ _ _ _ _ _)))
    with (f_labels (facets k')).
  change (GetAnnotations (kunStr (mkResource k' _ _ _ _ _ _ _)))
    with (f_annotations (facets k')).
  change (Resource_GetName (mkResource k' _ _ _ _ _ _ _))
    with (f_name (facets k')).
  change (kunStr (mkResource k' _ _ _ _ _ _ _)) with k'.
  rewrite Hk'. simpl. repeat split; apply overlaid_union.
Qed.

Lemma dataOf_data (m1 m2 : JObject) :
  m1 !! "data" = m2 !! "data" → dataOf m1 = dataOf m2.
Proof. unfold dataOf. by intros ->. Qed.

(** What [Merge] leaves in the store: the store after [Replace], with the
    mapping of [self]'s document rebound at ["data"]. *)
Lemma Merge_ok σ r o self other :
  σ !! r = Some self → σ !! o = Some other →
  ∃ self1,
    Replace r o σ = Some (tt, <[r := self1]> σ) ∧
    Map (kunStr self1) !! "data" = Map (kunStr self) !! "data" ∧
    Merge r o σ =
    Some (tt, <[r := set_kunStr self1
                        (StoreMap (kunStr self1)
                           (<["data" := JMap (dataOf (Resource_Map self) ∪
                                              dataOf (Resource_Map other))]>
                              (Map (kunStr self1))))]> σ).
Proof.
  intros Hr Ho.
  destruct (Replace_ok σ r o self other Hr Ho) as (k' & Hrun & Hk').
  pose proof (f_equal f_data Hk') as Hdata. simpl in Hdata.
  eexists. split; [exact Hrun|]. split; [exact Hdata|].
  unfold Merge. unfold mbind at 1, M_bind at 1. rewrite Hrun.
  destruct (decide (r = o)) as [->|Hne].
  - assert (self = other) as -> by congruence. clear Ho.
    repeat store_step. rewrite mergeConfigmap_pair.
    unfold Resource_Map. simpl. by rewrite (dataOf_data _ _ Hdata).
  - repeat store_step. rewrite mergeConfigmap_pair.
    unfold Resource_Map. simpl. by rewrite (dataOf_data _ _ Hdata).
Qed.

(** C3.  [Merge] is [Replace] followed by one write to the document of
    [self]: its ["data"] entry becomes the key-level union of the ["data"]
    mappings of [other] and of [self], the entries of [self] winning, and
    the other entries of the document stay as [Replace] left them.  With
    data [{k1: v1}] in [self] and [{k1: old, k2: v2}] in [other] the result
    is [{k1: v1, k2: v2}]. *)
Theorem Merge_spec σ r o self other :
  σ !! r = Some self → σ !! o = Some other →
  ∃ self1 self2 merged,
    Replace r o σ = Some (tt, <[r := self1]> σ) ∧
    Merge r o σ = Some (tt, <[r := self2]> σ) ∧
    overlaid (dataOf (Resource_Map self)) (dataOf (Resource_Map other)) merged ∧
    self2 = set_kunStr self1
              (StoreMap (kunStr self1)
                        (<["data" := JMap merged]> (Resource_Map self1))) ∧
    Resource_Map self2 !! "data" = Some (JMap merged) ∧
    (∀ key, key ≠ "data" → Resource_Map self2 !! key = Resource_Map self1 !! key) ∧
    (dataOf (Resource_Map self) = {["k1" := JStr "v1"]} →
     dataOf (Resource_Map other) = {["k1" := JStr "old"; "k2" := JStr "v2"]} →
     merged = {["k1" := JStr "v1"; "k2" := JStr "v2"]}).
Proof.
  intros Hr Ho.
  destruct (Merge_ok σ r o self other Hr Ho) as (self1 & Hrep & _ & Hrun).
  eexists self1, _, _. split; [exact Hrep|]. split; [exact Hrun|].
  split; [apply overlaid_union|]. split; [reflexivity|].
  split.
  { unfold Resource_Map at 1. simpl. rewrite Map_StoreMap.
    apply lookup_insert_eq. }
  split.
  - intros key Hkey. unfold Resource_Map. simpl. rewrite Map_StoreMap.
    by rewrite lookup_insert_ne.
  - intros -> ->. reflexivity.
Qed.

(** C9.  After [Merge] the document of [self] binds ["data"] to a mapping,
    and to the empty mapping when neither document had a mapping under
    ["data"]. *)
Theorem Merge_data_present σ r o self other :
  σ !! r = Some self → σ !! o = Some other →
  ∃ self' merged,
    Merge r o σ = Some (tt, <[r := self']> σ) ∧
    Resource_Map self' !! "data" = Some (JMap merged) ∧
    (asMap (Resource_Map self !! "data") = None →
     asMap (Resource_Map other !! "data") = None →
     merged = ∅).
Proof.
  intros Hr Ho.
  destruct (Merge_ok σ r o self other Hr Ho) as (self1 & _ & _ & Hrun).
  eexists _, _. split; [exact Hrun|].
  unfold Resource_Map at 1. simpl. rewrite Map_StoreMap.
  split; [apply lookup_insert_eq|].
  intros Hs Hothr. unfold dataOf. rewrite Hs, Hothr. simpl.
  by rewrite (left_id_L ∅ (∪)).
Qed.

End combinators.

(** *** Identities and text *)

Lemma string_length_app (s1 s2 : string) :
  String.length (s1 ++ s2) = String.length s1 + String.length s2.
Proof. induction s1 as [|c s1 IH]; simpl; [done|]. by rewrite IH. Qed.

Section identity.
Context {K : Type} `{!Kunstructured K} `{!KunstructuredLaws K} {GenArgs : Type}.
Implicit Types (k u : K) (r : Resource K GenArgs).

Lemma GetName_SetName k n : GetName (SetName k n) = n.
Proof. by rewrite GetName_facets, facets_SetName. Qed.

Lemma namespace_SetNamespace r ns : GetNamespace (Resource_SetNamespace r ns) = ns.
Proof.
  rewrite GetNamespace_facets. unfold Resource_SetNamespace, set_kunStr.
  cbn [kunStr]. by rewrite facets_SetNamespace.
Qed.

(** C5.  [CurId] is computed from the document as it is at the time of the
    call, [OrgId] from the name and namespace recorded in the Resource: a
    rename shows in [CurId] and not in [OrgId].  A Resource made from a
    document named ["a"] and then renamed to ["b"] has the current name
    ["b"] and the original name ["a"]. *)
Theorem CurId_live_OrgId_snapshot :
  (∀ r n,
      Name (CurId (Resource_SetName r n)) = n ∧
      Name (OrgId (Resource_SetName r n)) = originalName r ∧
      Namespace (OrgId (Resource_SetName r n)) = originalNs r) ∧
  (∀ r ns,
      Namespace (CurId (Resource_SetNamespace r ns)) = ns ∧
      Name (OrgId (Resource_SetNamespace r ns)) = originalName r ∧
      Namespace (OrgId (Resource_SetNamespace r ns)) = originalNs r) ∧
  (∀ u (opts : option GenArgs),
      let r := makeOne u opts in
      GetName u = "a" →
      Name (CurId r) = "a" ∧ Name (OrgId r) = "a" ∧
      Name (CurId (Resource_SetName r "b")) = "b" ∧
      Name (OrgId (Resource_SetName r "b")) = "a").
Proof.
  split; [|split].
  - intros r n. simpl. by rewrite GetName_SetName.
  - intros r ns. split; [|done].
    unfold CurId. simpl. apply namespace_SetNamespace.
  - intros u opts r Hname. simpl. by rewrite GetName_SetName.
Qed.

(** C7.  [GetNamespace] returns a string and nothing else.  When the lookup
    of [metadata.namespace] in the document fails, the string is empty,
    which is also what a document whose namespace is the empty string
    gives, and what any other failed lookup gives. *)
Theorem GetNamespace_failed_lookup_is_empty r s e :
  GetString (kunStr r) "metadata.namespace" = (s, Some e) →
  GetNamespace r = "" ∧
  (∀ r' : Resource K GenArgs,
      GetString (kunStr r') "metadata.namespace" = ("", None) →
      GetNamespace r' = GetNamespace r) ∧
  (∀ (r' : Resource K GenArgs) s' e',
      GetString (kunStr r') "metadata.namespace" = (s', Some e') →
      GetNamespace r' = GetNamespace r).
Proof.
  assert (Hempty : ∀ (x : Resource K GenArgs) sx ex,
             GetString (kunStr x) "metadata.namespace" = (sx, Some ex) →
             GetNamespace x = "").
  { intros x sx ex Hx. pose proof (GetString_error _ _ _ _ Hx) as ->.
    unfold GetNamespace. by rewrite Hx. }
  intros Hfail. rewrite (Hempty r s e Hfail). split; [done|]. split.
  - intros r' Hok. unfold GetNamespace. by rewrite Hok.
  - intros r' s' e' Hfail'. by apply (Hempty r' s' e').
Qed.

End identity.

Section text.
Context {K : Type} `{!Kunstructured K} {GenArgs : Type}.
Variable TrimSpace : string → string.
Variable GenArgs_String : option GenArgs → string.
Implicit Types r : Resource K GenArgs.

(** C6.  When marshalling succeeds, [String] is the trimmed marshalled
    text followed at once by the rendering of the options: its length is
    the sum of the two lengths.  When marshalling fails, [String] is the
    message of the error between angle brackets; no error is returned. *)
Theorem String_concatenation r :
  match MarshalJSON (kunStr r) with
  | (bs, None) =>
      Resource_String TrimSpace GenArgs_String r =
      TrimSpace bs ++ GenArgs_String (options r) ∧
      String.length (Resource_String TrimSpace GenArgs_String r) =
      String.length (TrimSpace bs) + String.length (GenArgs_String (options r))
  | (_, Some err) =>
      Resource_String TrimSpace GenArgs_String r = "<" ++ Error err ++ ">"
  end.
Proof.
  unfold Resource_String. destruct (MarshalJSON (kunStr r)) as [bs [err|]].
  - reflexivity.
  - split; [reflexivity|]. apply string_length_app.
Qed.

End text.

(** *** The document implementation is lawful *)

Module UnstructFacts.
Import Unstruct.

Lemma metaOf_putMeta k f v : metaOf (putMeta k f v) = <[f := v]> (metaOf k).
Proof. unfold metaOf at 1, putMeta. by rewrite lookup_insert_eq. Qed.

Lemma metaOf_dropMeta k f : metaOf (dropMeta k f) = delete f (metaOf k).
Proof.
  unfold dropMeta, metaOf. destruct (asMap (k !! "metadata")) as [m|] eqn:Hm.
  - by rewrite lookup_insert_eq.
  - rewrite Hm. simpl. by rewrite delete_empty.
Qed.

Lemma data_putMeta k f v : putMeta k f v !! "data" = k !! "data".
Proof. unfold putMeta. by rewrite lookup_insert_ne. Qed.

Lemma data_dropMeta k f : dropMeta k f !! "data" = k !! "data".
Proof.
  unfold dropMeta. destruct (asMap (k !! "metadata")); [|done].
  by rewrite lookup_insert_ne.
Qed.

Lemma lookup_setMetaString k f s g :
  metaOf (setMetaString k f s) !! g =
  if decide (f = g)
  then (if decide (s = "") then None else Some (JStr s))
  else metaOf k !! g.
Proof.
  unfold setMetaString. destruct (decide (s = "")).
  - rewrite metaOf_dropMeta, lookup_delete. by destruct (decide (f = g)).
  - rewrite metaOf_putMeta, lookup_insert. by destruct (decide (f = g)).
Qed.

Lemma data_setMetaString k f s : setMetaString k f s !! "data" = k !! "data".
Proof.
  unfold setMetaString. destruct (decide (s = ""));
    [apply data_dropMeta|apply data_putMeta].
Qed.

Lemma getMetaString_set k f s g :
  getMetaString (setMetaString k f s) g =
  if decide (f = g) then s else getMetaString k g.
Proof.
  unfold getMetaString. rewrite lookup_setMetaString.
  destruct (decide (f = g)); [|done]. by destruct (decide (s = "")) as [->|].
Qed.

Lemma asStringMap_strings (l : StringMap) : asStringMap (JStr <$> l) = l.
Proof.
  unfold asStringMap. rewrite decide_True.
  - apply map_eq. intros key. rewrite lookup_omap, lookup_fmap.
    by destruct (l !! key).
  - apply map_Forall_fmap. intros key s _. simpl. eauto.
Qed.

Lemma getMetaMap_setMetaMap k f l g :
  getMetaMap (setMetaMap k f l) g = if decide (f = g) then l else getMetaMap k g.
Proof.
  unfold getMetaMap, setMetaMap. rewrite metaOf_putMeta, lookup_insert.
  destruct (decide (f = g)); [|done]. simpl. apply asStringMap_strings.
Qed.

Lemma getMetaMap_setMetaString k f s g :
  f ≠ g → getMetaMap (setMetaString k f s) g = getMetaMap k g.
Proof.
  intros Hne. unfold getMetaMap. rewrite lookup_setMetaString.
  by rewrite decide_False.
Qed.

Lemma getMetaString_setMetaMap k f l g :
  f ≠ g → getMetaString (setMetaMap k f l) g = getMetaString k g.
Proof.
  intros Hne. unfold getMetaString, setMetaMap.
  by rewrite metaOf_putMeta, lookup_insert_ne.
Qed.

Lemma getString_namespace k :
  (getString k "metadata.namespace").1 = getMetaString k "namespace".
Proof.
  unfold getString, getMetaString, metaOf.
  change (splitOn "." "metadata.namespace") with ["metadata"; "namespace"].
  simpl. destruct (k !! "metadata") as [[| | | | |m]|]; simpl; try done.
  destruct (m !! "namespace") as [[]|]; done.
Qed.

Lemma getString_error k p s e : getString k p = (s, Some e) → s = "".
Proof. unfold getString. destruct (asString _); congruence. Qed.

#[global] Instance laws : KunstructuredLaws JObject.
Proof.
  split.
  - intros k l. unfold facets, set_f_labels. simpl.
    rewrite !getString_namespace, !getMetaMap_setMetaMap.
    rewrite !getMetaString_setMetaMap by done.
    unfold setMetaMap. by rewrite data_putMeta.
  - intros k a. unfold facets, set_f_annotations. simpl.
    rewrite !getString_namespace, !getMetaMap_setMetaMap.
    rewrite !getMetaString_setMetaMap by done.
    unfold setMetaMap. by rewrite data_putMeta.
  - intros k n. unfold facets, set_f_name. simpl.
    rewrite !getString_namespace, !getMetaString_set.
    rewrite !getMetaMap_setMetaString by done.
    by rewrite data_setMetaString.
  - intros k ns. unfold facets, set_f_namespace. simpl.
    rewrite !getString_namespace, !getMetaString_set.
    rewrite !getMetaMap_setMetaString by done.
    by rewrite data_setMetaString.
  - done.
  - apply getString_error.
Qed.

End UnstructFacts.

(* ===================================================================== *)
(** ** The properties at the sample resources *)
(* ===================================================================== *)

Lemma Replace_spec_witness :
  (Sample.store !! 1%positive = Some Sample.self ∧
   Sample.store !! 2%positive = Some Sample.other) ∧
  ∃ self',
    Replace 1%positive 2%positive Sample.store =
    Some (tt, <[1%positive := self']> Sample.store) ∧
    overlaid (GetLabels (kunStr Sample.self)) (GetLabels (kunStr Sample.other))
             (GetLabels (kunStr self')) ∧
    overlaid (GetAnnotations (kunStr Sample.self))
             (GetAnnotations (kunStr Sample.other))
             (GetAnnotations (kunStr self')) ∧
    Resource_GetName self' = Resource_GetName Sample.other ∧
    GetNamespace self' = GetNamespace Sample.other ∧
    originalName self' = originalName Sample.other ∧
    originalNs self' = originalNs Sample.other ∧
    options self' = options Sample.other ∧
    refBy self' = refBy Sample.other ∧
    refVarNames self' = refVarNames Sample.other ∧
    namePrefixes self' = namePrefixes Sample.other ∧
    nameSuffixes self' = nameSuffixes Sample.other.
Proof.
  split; [split; vm_compute; reflexivity|].
  apply (Replace_spec Sample.store 1%positive 2%positive Sample.self Sample.other);
    vm_compute; reflexivity.
Defined.

Lemma Merge_spec_witness :
  (Sample.store !! 1%positive = Some Sample.self ∧
   Sample.store !! 2%positive = Some Sample.other) ∧
  ∃ self1 self2 merged,
    Replace 1%positive 2%positive Sample.store =
    Some (tt, <[1%positive := self1]> Sample.store) ∧
    Merge 1%positive 2%positive Sample.store =
    Some (tt, <[1%positive := self2]> Sample.store) ∧
    overlaid (dataOf (Resource_Map Sample.self))
             (dataOf (Resource_Map Sample.other)) merged ∧
    self2 = set_kunStr self1
              (StoreMap (kunStr self1)
                        (<["data" := JMap merged]> (Resource_Map self1))) ∧
    Resource_Map self2 !! "data" = Some (JMap merged) ∧
    (∀ key, key ≠ "data" → Resource_Map self2 !! key = Resource_Map self1 !! key) ∧
    (dataOf (Resource_Map Sample.self) = {["k1" := JStr "v1"]} →
     dataOf (Resource_Map Sample.other) = {["k1" := JStr "old"; "k2" := JStr "v2"]} →
     merged = {["k1" := JStr "v1"; "k2" := JStr "v2"]}).
Proof.
  split; [split; vm_compute; reflexivity|].
  apply (Merge_spec Sample.store 1%positive 2%positive Sample.self Sample.other);
    vm_compute; reflexivity.
Defined.

Lemma Merge_data_present_witness :
  (Sample.store !! 3%positive = Some Sample.plain ∧
   Sample.store !! 4%positive = Some Sample.bare) ∧
  ∃ self' merged,
    Merge 3%positive 4%positive Sample.store =
    Some (tt, <[3%positive := self']> Sample.store) ∧
    Resource_Map self' !! "data" = Some (JMap merged) ∧
    (asMap (Resource_Map Sample.plain !! "data") = None →
     asMap (Resource_Map Sample.bare !! "data") = None →
     merged = ∅).
Proof.
  split; [split; vm_compute; reflexivity|].
  apply (Merge_data_present Sample.store 3%positive 4%positive
           Sample.plain Sample.bare);
    vm_compute; reflexivity.
Defined.

Lemma ResetPrimaryData_frame_witness :
  (Sample.store !! 1%positive = Some Sample.self ∧
   Sample.store !! 2%positive = Some Sample.other) ∧
  ∃ self',
    ResetPrimaryData 1%positive 2%positive Sample.store =
    Some (tt, <[1%positive := self']> Sample.store) ∧
    kunStr self' = Copy (kunStr Sample.other) ∧
    originalName self' = originalName Sample.self ∧
    originalNs self' = originalNs Sample.self ∧
    options self' = options Sample.self ∧
    refBy self' = refBy Sample.self ∧
    refVarNames self' = refVarNames Sample.self ∧
    namePrefixes self' = namePrefixes Sample.self ∧
    nameSuffixes self' = nameSuffixes Sample.self.
Proof.
  split; [split; vm_compute; reflexivity|].
  apply (ResetPrimaryData_frame Sample.store 1%positive 2%positive
           Sample.self Sample.other);
    vm_compute; reflexivity.
Defined.

Lemma CurId_live_OrgId_snapshot_witness :
  GetName Sample.selfDoc = "a" ∧
  Name (CurId Sample.self) = "a" ∧
  Name (OrgId Sample.self) = "a" ∧
  Name (CurId (Resource_SetName Sample.self "b")) = "b" ∧
  Name (OrgId (Resource_SetName Sample.self "b")) = "a".
Proof.
  split; [vm_compute; reflexivity|].
  apply (proj2 (proj2 (CurId_live_OrgId_snapshot (K := JObject)
                         (GenArgs := Sample.GenArgs)))
           Sample.selfDoc (Some (Sample.mkGenArgs Sample.BehaviorMerge false))).
  vm_compute; reflexivity.
Defined.

Lemma GetNamespace_failed_lookup_is_empty_witness :
  GetString (kunStr Sample.self) "metadata.namespace" =
  ("", Some (mkError "no field named metadata.namespace")) ∧
  GetNamespace Sample.self = "" ∧
  (∀ r' : Resource JObject Sample.GenArgs,
      GetString (kunStr r') "metadata.namespace" = ("", None) →
      GetNamespace r' = GetNamespace Sample.self) ∧
  (∀ (r' : Resource JObject Sample.GenArgs) s' e',
      GetString (kunStr r') "metadata.namespace" = (s', Some e') →
      GetNamespace r' = GetNamespace Sample.self).
Proof.
  split; [vm_compute; reflexivity|].
  apply (GetNamespace_failed_lookup_is_empty Sample.self ""
           (mkError "no field named metadata.namespace")).
  vm_compute; reflexivity.
Defined.

Lemma outermost_blank_indistinguishable_witness :
  (blankTop (namePrefixes Sample.emptyStacks) ∧
   blankTop (namePrefixes Sample.blankPushed) ∧
   blankTop (nameSuffixes Sample.emptyStacks) ∧
   blankTop (nameSuffixes Sample.blankPushed)) ∧
  namePrefixes Sample.emptyStacks = None ∧
  namePrefixes Sample.blankPushed = Some ["x"; ""] ∧
  OutermostPrefixSuffixEquals Sample.emptyStacks Sample.blankPushed = Some true.
Proof.
  assert (H1 : blankTop (namePrefixes Sample.emptyStacks)) by (left; reflexivity).
  assert (H2 : blankTop (namePrefixes Sample.blankPushed)) by (right; reflexivity).
  assert (H3 : blankTop (nameSuffixes Sample.emptyStacks)) by (left; reflexivity).
  assert (H4 : blankTop (nameSuffixes Sample.blankPushed)) by (right; reflexivity).
  split; [by repeat split|]. split; [reflexivity|]. split; [reflexivity|].
  exact (proj2 (proj2 (proj2 (proj2 outermost_blank_indistinguishable)))
           Sample.emptyStacks Sample.blankPushed H1 H2 H3 H4).
Defined.

(** *** The methods run on the sample resources *)

Example Replace_sample :
  (λ r, (GetLabels (kunStr r), Resource_GetName r, GetNamespace r,
         originalName r, namePrefixes r, nameSuffixes r, refBy r))
    <$> after (Replace 1%positive 2%positive) Sample.store 1%positive =
  Some ({[ "env" := "self"; "team" := "x" ]}, "cm", "prod", "cm",
        Some ["p-"], Some ["-s"], Some [Sample.deployment]).
Proof. vm_compute. reflexivity. Qed.

Example Replace_sample_same_pointer :
  after (Replace 1%positive 1%positive) Sample.store 1%positive =
  Some (Resource_SetNamespace
          (set_kunStr Sample.self
             (SetAnnotations (SetLabels Sample.selfDoc {[ "env" := "self" ]}) ∅))
          "").
Proof. vm_compute. reflexivity. Qed.

Example Merge_sample :
  (λ r, Resource_Map r !! "data")
    <$> after (Merge 1%positive 2%positive) Sample.store 1%positive =
  Some (Some (JMap {[ "k1" := JStr "v1"; "k2" := JStr "v2" ]})).
Proof. vm_compute. reflexivity. Qed.

Example Merge_sample_no_data :
  (λ r, Resource_Map r !! "data")
    <$> after (Merge 3%positive 4%positive) Sample.store 3%positive =
  Some (Some (JMap ∅)).
Proof. vm_compute. reflexivity. Qed.

Example Merge_sample_nil_pointer :
  Merge 1%positive 9%positive Sample.store = None.
Proof. vm_compute. reflexivity. Qed.

Example ReferencesEqual_sample :
  let A := Sample.deployment in
  let B := NewResIdWithNamespace (mkGvk "" "v1" "Service") "web" "prod" in
  ReferencesEqual (set_refBy Sample.self (Some [A; B; A]))
                  (set_refBy Sample.other (Some [B; A])) = true ∧
  ReferencesEqual (set_refBy Sample.self (Some [A]))
                  (set_refBy Sample.other (Some [B; A])) = false ∧
  ReferencesEqual (set_refBy Sample.self (Some [A; B]))
                  (set_refBy Sample.other (Some [A])) = false ∧
  ReferencesEqual (set_refBy Sample.self None)
                  (set_refBy Sample.other (Some [])) = true.
Proof. vm_compute. done. Qed.

Example String_sample :
  Resource_String (λ s, s) (λ _, "{nilGenArgs}") Sample.plain =
  Unstruct.encode (JMap Sample.plainDoc) ++ "{nilGenArgs}".
Proof. reflexivity. Qed.

Example CurId_sample :
  CurId (Resource_SetName Sample.other "b") =
  NewResIdWithNamespace (mkGvk "" "v1" "ConfigMap") "b" "prod" ∧
  OrgId (Resource_SetName Sample.other "b") =
  NewResIdWithNamespace (mkGvk "" "v1" "ConfigMap") "cm" "prod".
Proof. vm_compute. done. Qed.

(* ===================================================================== *)
(** ** Further properties *)
(* ===================================================================== *)

(** *** Name stacks *)

Lemma lastElems_suffix {A} (l1 l2 : list A) :
  (length l1 ≤ length l2)%nat →
  (lastElems (length l1) l1 = lastElems (length l1) l2 ↔ l1 `suffix_of` l2).
Proof.
  intros Hlen. unfold lastElems. rewrite Nat.sub_diag, drop_0. split.
  - intros ->. apply suffix_drop.
  - intros [k ->]. rewrite length_app.
    replace (length k + length l1 - length l1) with (length k) by lia.
    by rewrite drop_app_length.
Qed.

Lemma endingMatch_suffix (A B : list string) :
  endingMatch A B ↔ A `suffix_of` B ∨ B `suffix_of` A.
Proof.
  rewrite endingMatch_lastElems.
  destruct (decide (length A ≤ length B)%nat) as [Hle|Hgt].
  - rewrite Nat.min_l by done. rewrite lastElems_suffix by done. split; [tauto|].
    intros [H|H]; [done|]. pose proof (suffix_length _ _ H).
    assert (length B = length A) as Hlen by lia.
    destruct H as [k ->]. rewrite length_app in Hlen.
    assert (k = []) as -> by (apply length_zero_iff_nil; lia). done.
  - rewrite Nat.min_r by lia. split.
    + intros H. right. apply lastElems_suffix; [lia|done].
    + intros [H|H].
      * pose proof (suffix_length _ _ H). lia.
      * symmetry. apply lastElems_suffix; [lia|done].
Qed.

Lemma sameEnding_closed (a b : slice string) :
  sameEndingSubarray a b =
  Some (bool_decide (elems a `suffix_of` elems b ∨ elems b `suffix_of` elems a)).
Proof.
  destruct (sameEndingSubarray_spec a b) as (res & -> & Hres). f_equal.
  rewrite endingMatch_suffix in Hres.
  destruct res; symmetry.
  - apply bool_decide_eq_true. by apply Hres.
  - apply bool_decide_eq_false. intros H. apply Hres in H. done.
Qed.

Lemma sameEnding_true (a b : slice string) :
  sameEndingSubarray a b = Some true ↔
  elems a `suffix_of` elems b ∨ elems b `suffix_of` elems a.
Proof.
  rewrite sameEnding_closed. split.
  - intros [= H]. by apply bool_decide_eq_true in H.
  - intros H. f_equal. by apply bool_decide_eq_true.
Qed.

Lemma suffix_either_snoc {A} (l1 l2 : list A) (x y : A) :
  (l1 ++ [x])%list `suffix_of` (l2 ++ [y])%list ∨
  (l2 ++ [y])%list `suffix_of` (l1 ++ [x])%list ↔
  x = y ∧ (l1 `suffix_of` l2 ∨ l2 `suffix_of` l1).
Proof.
  split.
  - intros [H|H].
    + split; [by eapply suffix_snoc_inv_1|]. left. by eapply suffix_snoc_inv_2.
    + split; [symmetry; by eapply suffix_snoc_inv_1|].
      right. by eapply suffix_snoc_inv_2.
  - intros [-> [H|H]]; [left|right]; by apply suffix_snoc.
Qed.

Section more_name_stacks.
Context {K : Type} `{!Kunstructured K} {GenArgs : Type}.
Implicit Types r o : Resource K GenArgs.

(** X1.  [sameEndingSubarray] never panics and answers true exactly when
    one of the two slices is a suffix of the other; so
    [PrefixesSuffixesEquals] is true exactly when that holds of the prefix
    stacks and of the suffix stacks. *)
Theorem PrefixesSuffixesEquals_suffix :
  (∀ a b : slice string,
      sameEndingSubarray a b =
      Some (bool_decide (elems a `suffix_of` elems b ∨
                         elems b `suffix_of` elems a))) ∧
  (∀ r o,
      PrefixesSuffixesEquals r o =
      Some (bool_decide
              ((elems (namePrefixes r) `suffix_of` elems (namePrefixes o) ∨
                elems (namePrefixes o) `suffix_of` elems (namePrefixes r)) ∧
               (elems (nameSuffixes r) `suffix_of` elems (nameSuffixes o) ∨
                elems (nameSuffixes o) `suffix_of` elems (nameSuffixes r))))).
Proof.
  split; [apply sameEnding_closed|]. intros r o.
  unfold PrefixesSuffixesEquals, GetNamePrefixes, GetNameSuffixes.
  rewrite !sameEnding_closed.
  destruct (bool_decide_reflect
              (elems (namePrefixes r) `suffix_of` elems (namePrefixes o) ∨
               elems (namePrefixes o) `suffix_of` elems (namePrefixes r)))
    as [Hp|Hp].
  - f_equal. apply bool_decide_ext. tauto.
  - f_equal. symmetry. apply bool_decide_eq_false. tauto.
Qed.

(** X2.  The ending-subsequence match is reflexive and symmetric, an empty
    (or [nil]) slice matches every slice, and slices of equal length match
    only when they hold the same elements.  It is not transitive. *)
Theorem sameEndingSubarray_relation :
  (∀ a : slice string, sameEndingSubarray a a = Some true) ∧
  (∀ a b : slice string, sameEndingSubarray a b = sameEndingSubarray b a) ∧
  (∀ a b : slice string,
      elems a = [] → sameEndingSubarray a b = Some true) ∧
  (∀ a b : slice string,
      len a = len b →
      (sameEndingSubarray a b = Some true ↔ elems a = elems b)) ∧
  ¬ (∀ a b c : slice string,
        sameEndingSubarray a b = Some true →
        sameEndingSubarray b c = Some true →
        sameEndingSubarray a c = Some true).
Proof.
  split; [|split; [|split; [|split]]].
  - intros a. apply sameEnding_true. by left.
  - intros a b. rewrite !sameEnding_closed. f_equal.
    apply bool_decide_ext. tauto.
  - intros a b Ha. apply sameEnding_true. left. rewrite Ha.
    apply suffix_nil.
  - intros a b Hlen. rewrite sameEnding_true.
    assert (length (elems a) = length (elems b)) as Hl
      by (unfold len in Hlen; lia).
    split.
    + intros [H|H].
      * apply suffix_length_eq; [done|lia].
      * symmetry. apply suffix_length_eq; [done|lia].
    + intros ->. by left.
  - intros Htrans.
    specialize (Htrans (Some ["x"]) None (Some ["y"]) eq_refl eq_refl).
    discriminate Htrans.
Qed.

(** X3.  Pushing one more element on both slices keeps the answer of the
    match when the two elements are equal and makes it false when they
    differ; so adding the same prefix (or suffix) to two Resources keeps
    the answer of [PrefixesSuffixesEquals], and adding different ones
    makes it false. *)
Theorem push_both_sameEnding :
  (∀ (a b : slice string) x y,
      sameEndingSubarray (append a x) (append b y) =
      if decide (x = y) then sameEndingSubarray a b else Some false) ∧
  (∀ r o p q,
      PrefixesSuffixesEquals (AddNamePrefix r p) (AddNamePrefix o q) =
      if decide (p = q) then PrefixesSuffixesEquals r o else Some false) ∧
  (∀ r o s t,
      PrefixesSuffixesEquals (AddNameSuffix r s) (AddNameSuffix o t) =
      if decide (s = t) then PrefixesSuffixesEquals r o else Some false).
Proof.
  assert (Hpush : ∀ (a b : slice string) x y,
             sameEndingSubarray (append a x) (append b y) =
             if decide (x = y) then sameEndingSubarray a b else Some false).
  { intros a b x y. rewrite !sameEnding_closed. unfold append. simpl.
    destruct (decide (x = y)) as [->|Hne]; f_equal.
    - apply bool_decide_ext. rewrite suffix_either_snoc. tauto.
    - apply bool_decide_eq_false. rewrite suffix_either_snoc. tauto. }
  split; [exact Hpush|]. split.
  - intros r o p q.
    unfold PrefixesSuffixesEquals, GetNamePrefixes, GetNameSuffixes. simpl.
    rewrite Hpush. by destruct (decide (p = q)).
  - intros r o s t.
    unfold PrefixesSuffixesEquals, GetNamePrefixes, GetNameSuffixes. simpl.
    rewrite Hpush. destruct (decide (s = t)); [done|].
    rewrite (sameEnding_closed (namePrefixes r)). by destruct (bool_decide _).
Qed.

Lemma outermost_index (s : slice string) :
  (if decide (len s = 0%Z) then Some "" else index s (len s - 1)) =
  Some (outermost s).
Proof.
  unfold outermost. case_decide as Hlen.
  - assert (elems s = []) as ->; [|done].
    apply length_zero_iff_nil. unfold len in Hlen. lia.
  - rewrite index_last by done.
    destruct (last (elems s)) as [x|] eqn:Hlast; [done|].
    apply last_None in Hlast. unfold len in Hlen. rewrite Hlast in Hlen. done.
Qed.

Lemma outermost_append (s : slice string) (x : string) :
  outermost (append s x) = x.
Proof. unfold outermost, append. simpl. by rewrite last_snoc. Qed.

Lemma last_suffix {A} (l1 l2 : list A) :
  l1 `suffix_of` l2 → l1 ≠ [] → last l1 = last l2.
Proof.
  intros [k ->] Hne. rewrite last_app.
  destruct (last l1) eqn:Hlast; [done|]. by apply last_None in Hlast.
Qed.

Lemma outermost_suffix (s1 s2 : slice string) :
  (elems s1 = [] ↔ elems s2 = []) →
  elems s1 `suffix_of` elems s2 ∨ elems s2 `suffix_of` elems s1 →
  outermost s1 = outermost s2.
Proof.
  intros Hnil Hsuf. unfold outermost.
  destruct (decide (elems s1 = [])) as [H1|H1].
  - rewrite H1. apply Hnil in H1. by rewrite H1.
  - assert (elems s2 ≠ []) as H2 by tauto.
    destruct Hsuf as [H|H].
    + by rewrite (last_suffix _ _ H H1).
    + by rewrite (last_suffix _ _ H H2).
Qed.

Lemma OutermostPrefixSuffixEquals_closed r o :
  OutermostPrefixSuffixEquals r o =
  Some (bool_decide (outermost (namePrefixes r) = outermost (namePrefixes o) ∧
                     outermost (nameSuffixes r) = outermost (nameSuffixes o))).
Proof.
  unfold OutermostPrefixSuffixEquals, GetOutermostNamePrefix,
    GetOutermostNameSuffix.
  rewrite !outermost_index. simpl.
  destruct (bool_decide_reflect
              (outermost (namePrefixes r) = outermost (namePrefixes o)))
    as [Hp|Hp]; f_equal.
  - apply bool_decide_ext. tauto.
  - symmetry. apply bool_decide_eq_false. tauto.
Qed.

(** X4.  [PrefixesSuffixesEquals] is the deeper comparison: when it is
    true, and for each kind of stack the two Resources both have entries
    or both have none, [OutermostPrefixSuffixEquals] is true as well.
    Without that condition it need not be: a Resource with no prefix and
    the same Resource with one non-empty prefix added pass the deep
    comparison and fail the outermost one. *)
Theorem PrefixesSuffixesEquals_outermost :
  (∀ r o,
      (elems (namePrefixes r) = [] ↔ elems (namePrefixes o) = []) →
      (elems (nameSuffixes r) = [] ↔ elems (nameSuffixes o) = []) →
      PrefixesSuffixesEquals r o = Some true →
      OutermostPrefixSuffixEquals r o = Some true) ∧
  (∀ r p,
      elems (namePrefixes r) = [] → p ≠ "" →
      PrefixesSuffixesEquals (AddNamePrefix r p) r = Some true ∧
      OutermostPrefixSuffixEquals (AddNamePrefix r p) r = Some false).
Proof.
  split.
  - intros r o Hp Hs Hdeep.
    unfold PrefixesSuffixesEquals, GetNamePrefixes, GetNameSuffixes in Hdeep.
    destruct (sameEndingSubarray (namePrefixes r) (namePrefixes o))
      as [[]|] eqn:Hpre; try done.
    apply sameEnding_true in Hpre, Hdeep.
    rewrite OutermostPrefixSuffixEquals_closed. f_equal.
    apply bool_decide_eq_true. split; by apply outermost_suffix.
  - intros r p Hnil Hp. split.
    + unfold PrefixesSuffixesEquals, GetNamePrefixes, GetNameSuffixes. simpl.
      assert (sameEndingSubarray (append (namePrefixes r) p) (namePrefixes r)
              = Some true) as ->.
      { apply sameEnding_true. right. rewrite Hnil. apply suffix_nil. }
      apply sameEnding_true. by left.
    + rewrite OutermostPrefixSuffixEquals_closed. f_equal.
      apply bool_decide_eq_false. simpl. rewrite outermost_append.
      unfold outermost. rewrite Hnil. simpl. tauto.
Qed.

(** X5.  [GetOutermostNamePrefix] and [GetOutermostNameSuffix] never
    panic: they return the last element of their stack, or the empty
    string for a stack without elements.  After [AddNamePrefix r p] the
    outermost prefix is [p], the prefixes are the old ones followed by
    [p], and the outermost suffix is unchanged; likewise for
    [AddNameSuffix]. *)
Theorem outermost_after_push :
  (∀ r, GetOutermostNamePrefix r = Some (default "" (last (elems (namePrefixes r))))) ∧
  (∀ r, GetOutermostNameSuffix r = Some (default "" (last (elems (nameSuffixes r))))) ∧
  (∀ r p,
      GetOutermostNamePrefix (AddNamePrefix r p) = Some p ∧
      elems (GetNamePrefixes (AddNamePrefix r p)) =
      (elems (GetNamePrefixes r) ++ [p])%list ∧
      GetOutermostNameSuffix (AddNamePrefix r p) = GetOutermostNameSuffix r) ∧
  (∀ r s,
      GetOutermostNameSuffix (AddNameSuffix r s) = Some s ∧
      elems (GetNameSuffixes (AddNameSuffix r s)) =
      (elems (GetNameSuffixes r) ++ [s])%list ∧
      GetOutermostNamePrefix (AddNameSuffix r s) = GetOutermostNamePrefix r).
Proof.
  split; [|split; [|split]].
  - intros r. apply outermost_index.
  - intros r. apply outermost_index.
  - intros r p. split; [|done]. unfold GetOutermostNamePrefix. simpl.
    by rewrite outermost_index, outermost_append.
  - intros r s. split; [|done]. unfold GetOutermostNameSuffix. simpl.
    by rewrite outermost_index, outermost_append.
Qed.

(** X6.  [OutermostPrefixSuffixEquals] never panics and is an equivalence
    relation on Resources: reflexive, symmetric and transitive. *)
Theorem OutermostPrefixSuffixEquals_equivalence :
  (∀ r o, ∃ res, OutermostPrefixSuffixEquals r o = Some res) ∧
  (∀ r, OutermostPrefixSuffixEquals r r = Some true) ∧
  (∀ r o, OutermostPrefixSuffixEquals r o = OutermostPrefixSuffixEquals o r) ∧
  (∀ r o q,
      OutermostPrefixSuffixEquals r o = Some true →
      OutermostPrefixSuffixEquals o q = Some true →
      OutermostPrefixSuffixEquals r q = Some true).
Proof.
  split; [|split; [|split]].
  - intros r o. rewrite OutermostPrefixSuffixEquals_closed. eauto.
  - intros r. rewrite OutermostPrefixSuffixEquals_closed. f_equal.
    by apply bool_decide_eq_true.
  - intros r o. rewrite !OutermostPrefixSuffixEquals_closed. f_equal.
    apply bool_decide_ext. intuition congruence.
  - intros r o q. rewrite !OutermostPrefixSuffixEquals_closed.
    intros [= H1] [= H2]. f_equal.
    apply bool_decide_eq_true in H1, H2. apply bool_decide_eq_true.
    intuition congruence.
Qed.

End more_name_stacks.

(** *** Referrers, continued *)

Section more_references.
Context {K : Type} `{!Kunstructured K} {GenArgs : Type}.
Implicit Types r o q : Resource K GenArgs.

Lemma ReferencesEqual_members r o :
  ReferencesEqual r o = true ↔
  ∀ id, id ∈ elems (refBy r) ↔ id ∈ elems (refBy o).
Proof.
  rewrite ReferencesEqual_sets, set_eq. by setoid_rewrite elem_of_list_to_set.
Qed.

(** X7.  [ReferencesEqual] is an equivalence relation on Resources:
    reflexive, symmetric and transitive. *)
Theorem ReferencesEqual_equivalence :
  (∀ r, ReferencesEqual r r = true) ∧
  (∀ r o, ReferencesEqual r o = ReferencesEqual o r) ∧
  (∀ r o q,
      ReferencesEqual r o = true → ReferencesEqual o q = true →
      ReferencesEqual r q = true).
Proof.
  split; [|split].
  - intros r. by apply ReferencesEqual_sets.
  - intros r o.
    destruct (ReferencesEqual r o) eqn:H1, (ReferencesEqual o r) eqn:H2;
      try done.
    + apply ReferencesEqual_sets in H1. symmetry in H1.
      apply ReferencesEqual_sets in H1. congruence.
    + apply ReferencesEqual_sets in H2. symmetry in H2.
      apply ReferencesEqual_sets in H2. congruence.
  - intros r o q. rewrite !ReferencesEqual_sets. congruence.
Qed.

(** X8.  [AppendRefBy] stores what it is given, without removing
    duplicates: the list grows by one element.  For [ReferencesEqual] the
    repetition does not count: a Resource and the same Resource with one
    more referrer are equal exactly when that referrer was already in the
    list, and appending the same referrer to two equal Resources keeps
    them equal. *)
Theorem AppendRefBy_ReferencesEqual :
  (∀ r id,
      elems (GetRefBy (AppendRefBy r id)) = (elems (GetRefBy r) ++ [id])%list) ∧
  (∀ r id,
      ReferencesEqual (AppendRefBy r id) r = true ↔ id ∈ elems (refBy r)) ∧
  (∀ r o id,
      ReferencesEqual r o = true →
      ReferencesEqual (AppendRefBy r id) (AppendRefBy o id) = true).
Proof.
  split; [done|]. split.
  - intros r id. rewrite ReferencesEqual_members. simpl. split.
    + intros H. apply H. set_solver.
    + intros Hin x. set_solver.
  - intros r o id. rewrite !ReferencesEqual_members. simpl. intros H x.
    rewrite !elem_of_app. by rewrite H.
Qed.

End more_references.

(** *** Merging maps, continued *)

Lemma lastBinding_snoc {V} (maps : list (gmap string V)) (m : gmap string V)
    (key : string) (v : V) :
  lastBinding (maps ++ [m]) key v ↔
  m !! key = Some v ∨ (m !! key = None ∧ lastBinding maps key v).
Proof.
  unfold lastBinding. split.
  - intros (i & m0 & Hi & Hv & Hlater).
    destruct (decide (i < length maps)%nat) as [Hlt|Hge].
    + right. split.
      * apply (Hlater (length maps)); [done|].
        rewrite lookup_app_r by lia. by rewrite Nat.sub_diag.
      * exists i, m0. rewrite lookup_app_l in Hi by done.
        split; [done|]. split; [done|]. intros j m' Hj Hm'.
        apply (Hlater j); [done|]. rewrite lookup_app_l; [done|].
        by eapply lookup_lt_Some.
    + left. rewrite lookup_app_r in Hi by lia.
      destruct (i - length maps) as [|n] eqn:Hn; simpl in Hi; [|done].
      congruence.
  - intros [Hv|[Hnone (i & m0 & Hi & Hv & Hlater)]].
    + exists (length maps), m. rewrite lookup_app_r by lia.
      rewrite Nat.sub_diag. split; [done|]. split; [done|].
      intros j m' Hj Hm'. apply lookup_lt_Some in Hm'.
      rewrite length_app in Hm'. simpl in Hm'. lia.
    + exists i, m0. pose proof (lookup_lt_Some _ _ _ Hi) as Hlt.
      rewrite lookup_app_l by done. split; [done|]. split; [done|].
      intros j m' Hj Hm'.
      destruct (decide (j < length maps)%nat) as [Hjl|Hjg].
      * rewrite lookup_app_l in Hm' by done. by apply (Hlater j).
      * rewrite lookup_app_r in Hm' by lia.
        destruct (j - length maps) as [|n]; simpl in Hm'; [|done].
        congruence.
Qed.

Lemma overlay_lastBinding {V} (maps : list (gmap string V)) (key : string) (v : V) :
  foldl (λ acc m, m ∪ acc) ∅ maps !! key = Some v ↔ lastBinding maps key v.
Proof.
  induction maps as [|m maps IH] using rev_ind.
  - simpl. rewrite lookup_empty. split; [done|].
    intros (i & m & Hi & _). by rewrite lookup_nil in Hi.
  - rewrite foldl_snoc, lastBinding_snoc, lookup_union_Some_raw. by rewrite IH.
Qed.

Lemma mergeStringMaps_overlay (maps : list StringMap) :
  mergeStringMaps maps = foldl (λ acc m, m ∪ acc) ∅ maps.
Proof.
  unfold mergeStringMaps. generalize (∅ : StringMap).
  induction maps as [|m maps IH]; intros acc; simpl; [done|].
  by rewrite rangeAssign_union, IH.
Qed.


(** X9.  The result of [mergeStringMaps] binds a key exactly when one of
    the maps does, and to the value given by the last map that binds it:
    later arguments win.  No map gives the empty map, one map gives a copy
    of it. *)
Theorem mergeStringMaps_last_wins :
  (∀ (maps : list StringMap) key v,
      mergeStringMaps maps !! key = Some v ↔ lastBinding maps key v) ∧
  mergeStringMaps [] = ∅ ∧
  (∀ m : StringMap, mergeStringMaps [m] = m).
Proof.
  split; [|split].
  - intros maps key v. rewrite mergeStringMaps_overlay.
    apply overlay_lastBinding.
  - done.
  - intros m. rewrite mergeStringMaps_overlay. simpl.
    by rewrite (right_id_L ∅ (∪)).
Qed.


(** *** The store, continued *)

Section more_store_facts.
Context {K : Type} `{!Kunstructured K} {GenArgs : Type}.
Implicit Types (σ : heap K GenArgs) (p r o : loc).
Implicit Types self other : Resource K GenArgs.
#[local] Existing Instance M_ret.
#[local] Existing Instance M_bind.

Lemma bind_get_None {A B} σ p (f : Resource K GenArgs → A) (k : A → M B) :
  σ !! p = None → (get p f ≫= k) σ = None.
Proof. intros Hp. unfold mbind, M_bind, get. by rewrite Hp. Qed.

Lemma bind_update_None {B} σ p f (k : unit → M B) :
  σ !! p = None → (update p f ≫= k) σ = None.
Proof. intros Hp. unfold mbind, M_bind, update. by rewrite Hp. Qed.

Lemma update_None σ p f : σ !! p = None → update p f σ = None.
Proof. intros Hp. unfold update. by rewrite Hp. Qed.



Lemma Replace_runs σ r o self other :
  σ !! r = Some self → σ !! o = Some other →
  ∃ self', Replace r o σ = Some (tt, <[r := self']> σ).
Proof.
  intros Hr Ho. unfold Replace.
  destruct (decide (r = o)) as [->|Hne].
  - repeat store_step. erewrite copyOtherFields_ok by store_lookup.
    rewrite insert_insert_eq. eauto.
  - repeat store_step. erewrite copyOtherFields_ok by store_lookup.
    rewrite insert_insert_eq. eauto.
Qed.

Lemma Merge_runs σ r o self other :
  σ !! r = Some self → σ !! o = Some other →
  ∃ self', Merge r o σ = Some (tt, <[r := self']> σ).
Proof.
  intros Hr Ho. destruct (Replace_runs σ r o self other Hr Ho) as [self1 Hrun].
  unfold Merge. unfold mbind at 1, M_bind at 1. rewrite Hrun.
  destruct (decide (r = o)) as [->|Hne]; repeat store_step; eauto.
Qed.

Lemma ResetPrimaryData_runs σ r o self incoming :
  σ !! r = Some self → σ !! o = Some incoming →
  ∃ self', ResetPrimaryData r o σ = Some (tt, <[r := self']> σ).
Proof.
  intros Hr Ho. unfold ResetPrimaryData. repeat store_step. eauto.
Qed.


Lemma Replace_fails σ r o :
  σ !! r = None ∨ σ !! o = None → Replace r o σ = None.
Proof.
  intros Hnil. unfold Replace. destruct (σ !! o) as [other|] eqn:Ho.
  - destruct Hnil as [Hr|]; [|done].
    erewrite bind_get by eassumption. by apply bind_get_None.
  - by apply bind_get_None.
Qed.

Lemma Merge_fails σ r o :
  σ !! r = None ∨ σ !! o = None → Merge r o σ = None.
Proof.
  intros Hnil. unfold Merge. unfold mbind at 1, M_bind at 1.
  by rewrite Replace_fails.
Qed.

Lemma ResetPrimaryData_fails σ r o :
  σ !! r = None ∨ σ !! o = None → ResetPrimaryData r o σ = None.
Proof.
  intros Hnil. unfold ResetPrimaryData. destruct (σ !! o) as [other|] eqn:Ho.
  - destruct Hnil as [Hr|]; [|done].
    erewrite bind_get by eassumption. by apply update_None.
  - by apply bind_get_None.
Qed.

Lemma both_or_nil σ r o :
  (∃ self other, σ !! r = Some self ∧ σ !! o = Some other) ∨
  (σ !! r = None ∨ σ !! o = None).
Proof. destruct (σ !! r), (σ !! o); eauto. Qed.


(** X12.  [Replace], [Merge] and [ResetPrimaryData] write through their
    receiver only: when one of them returns, the store holds the same
    addresses as before, and every Resource other than the receiver,
    the argument included when it is another Resource, is as it was. *)
Theorem writes_only_receiver σ σ' r o :
  Replace r o σ = Some (tt, σ') ∨
  Merge r o σ = Some (tt, σ') ∨
  ResetPrimaryData r o σ = Some (tt, σ') →
  dom σ' = dom σ ∧ ∀ p, p ≠ r → σ' !! p = σ !! p.
Proof.
  intros Hrun.
  assert (∃ self self', σ !! r = Some self ∧ σ' = <[r := self']> σ)
    as (self & self' & Hr & ->).
  { destruct (both_or_nil σ r o) as [(self & other & Hr & Ho)|Hnil].
    - exists self.
      destruct (Replace_runs σ r o self other Hr Ho) as [s1 H1].
      destruct (Merge_runs σ r o self other Hr Ho) as [s2 H2].
      destruct (ResetPrimaryData_runs σ r o self other Hr Ho) as [s3 H3].
      rewrite H1, H2, H3 in Hrun.
      destruct Hrun as [[=]|[[=]|[=]]]; subst σ'; eauto.
    - rewrite Replace_fails, Merge_fails, ResetPrimaryData_fails in Hrun
        by done.
      by destruct Hrun as [|[|]]. }
  split.
  - rewrite dom_insert_L. apply elem_of_dom_2 in Hr. set_solver.
  - intros p Hp. by rewrite lookup_insert_ne.
Qed.

End more_store_facts.

Section more_combinators.
Context {K : Type} `{!Kunstructured K} `{!KunstructuredLaws K} {GenArgs : Type}.
Implicit Types (σ : heap K GenArgs) (r o : loc).
Implicit Types self other : Resource K GenArgs.

Lemma facets_own (k : K) :
  mkFacets (GetLabels k ∪ GetLabels k) (GetAnnotations k ∪ GetAnnotations k)
           (GetName k) (f_namespace (facets k)) (Map k !! "data") = facets k.
Proof. unfold facets. simpl. by rewrite !(idemp_L (∪)). Qed.

Lemma Replace_same_ok σ r self :
  σ !! r = Some self →
  ∃ k', Replace r r σ = Some (tt, <[r := set_kunStr self k']> σ) ∧
        facets k' = facets (kunStr self).
Proof.
  intros Hr. destruct (Replace_ok σ r r self self Hr Hr) as (k' & Hrun & Hk').
  exists k'. split; [exact Hrun|]. rewrite Hk'.
  rewrite GetNamespace_facets. apply facets_own.
Qed.

(** X13.  Replacing a Resource by itself changes nothing that can be read
    back: labels, annotations, name, namespace and ["data"] of its document
    are as before, and so is every other field of the Resource. *)
Theorem Replace_same_pointer σ r self :
  σ !! r = Some self →
  ∃ self',
    Replace r r σ = Some (tt, <[r := self']> σ) ∧
    facets (kunStr self') = facets (kunStr self) ∧
    self' = set_kunStr self (kunStr self').
Proof.
  intros Hr. destruct (Replace_same_ok σ r self Hr) as (k' & Hrun & Hk').
  exists (set_kunStr self k'). by repeat split.
Qed.

(** X14.  [Replace] is idempotent on what can be read back: a second
    [Replace] with the same argument leaves labels, annotations, name,
    namespace and ["data"] of the document, and every other field of the
    Resource, as the first one left them. *)
Theorem Replace_idempotent σ r o self other :
  σ !! r = Some self → σ !! o = Some other →
  ∃ self1 self2,
    Replace r o σ = Some (tt, <[r := self1]> σ) ∧
    Replace r o (<[r := self1]> σ) = Some (tt, <[r := self2]> σ) ∧
    facets (kunStr self2) = facets (kunStr self1) ∧
    self2 = set_kunStr self1 (kunStr self2).
Proof.
  intros Hr Ho.
  destruct (Replace_ok σ r o self other Hr Ho) as (k1 & Hrun1 & Hk1).
  set (self1 := mkResource k1 (originalName other) (originalNs other)
                  (options other) (refBy other) (refVarNames other)
                  (namePrefixes other) (nameSuffixes other)) in *.
  exists self1. destruct (decide (r = o)) as [->|Hne].
  - assert (self = other) as -> by congruence.
    destruct (Replace_same_ok (<[o := self1]> σ) o self1)
      as (k2 & Hrun2 & Hk2); [apply lookup_insert_eq|].
    rewrite insert_insert_eq in Hrun2.
    eexists. split; [exact Hrun1|]. split; [exact Hrun2|]. by split.
  - destruct (Replace_ok (<[r := self1]> σ) r o self1 other)
      as (k2 & Hrun2 & Hk2);
      [apply lookup_insert_eq|by rewrite lookup_insert_ne|].
    rewrite insert_insert_eq in Hrun2.
    eexists. split; [exact Hrun1|]. split; [exact Hrun2|]. split; [|done].
    simpl in *. rewrite Hk2, Hk1.
    rewrite (GetLabels_facets k1), (GetAnnotations_facets k1),
      (Map_data_facets k1), Hk1. simpl.
    by rewrite <- !(assoc_L (∪)), !(idemp_L (∪)).
Qed.

(** X15.  After [Replace] the receiver stands for the argument: its
    current and its original identity have the name and namespace of the
    argument's, its referrers are [ReferencesEqual] to the argument's, the
    two pass [PrefixesSuffixesEquals] and [OutermostPrefixSuffixEquals],
    and [NeedHashSuffix] answers as for the argument. *)
Theorem Replace_aligns σ r o self other :
  σ !! r = Some self → σ !! o = Some other →
  ∃ self',
    Replace r o σ = Some (tt, <[r := self']> σ) ∧
    Name (CurId self') = Name (CurId other) ∧
    Namespace (CurId self') = Namespace (CurId other) ∧
    Name (OrgId self') = Name (OrgId other) ∧
    Namespace (OrgId self') = Namespace (OrgId other) ∧
    ReferencesEqual self' other = true ∧
    PrefixesSuffixesEquals self' other = Some true ∧
    OutermostPrefixSuffixEquals self' other = Some true ∧
    ∀ should : GenArgs → bool,
      NeedHashSuffix should self' = NeedHashSuffix should other.
Proof.
  intros Hr Ho.
  destruct (Replace_ok σ r o self other Hr Ho) as (k' & Hrun & Hk').
  eexists. split; [exact Hrun|].
  pose proof (f_equal f_name Hk') as Hname.
  pose proof (f_equal f_namespace Hk') as Hns. simpl in Hname, Hns.
  split; [exact Hname|]. split.
  { simpl. by rewrite (GetNamespace_facets (mkResource k' _ _ _ _ _ _ _)). }
  split; [done|]. split; [done|]. split.
  { apply ReferencesEqual_sets. done. }
  split.
  { unfold PrefixesSuffixesEquals, GetNamePrefixes, GetNameSuffixes. simpl.
    rewrite !sameEnding_closed. f_equal.
    rewrite !bool_decide_eq_true_2 by (by left). done. }
  split; [|done].
  rewrite OutermostPrefixSuffixEquals_closed. f_equal.
  by apply bool_decide_eq_true.
Qed.

End more_combinators.

Section more_copies.
Context {K : Type} `{!Kunstructured K} {GenArgs : Type}.
Implicit Types (σ : heap K GenArgs) (r : loc).
Variable DeepEqual : K → K → bool.


(** X17.  [Equals] is true exactly when the two referred-by lists hold the
    same identities and the documents are deeply equal.  It reads nothing
    else: the original name and namespace, the options, the variable names
    and the name stacks of a Resource have no part in it. *)
Theorem Equals_reads_documents_and_referrers :
  (∀ r o : Resource K GenArgs,
      Equals DeepEqual r o = true ↔
      (∀ id, id ∈ elems (refBy r) ↔ id ∈ elems (refBy o)) ∧
      KunstructEqual DeepEqual r o = true) ∧
  (∀ (r o : Resource K GenArgs) n ns opts vars pre suf,
      Equals DeepEqual
             (mkResource (kunStr r) n ns opts (refBy r) vars pre suf) o =
      Equals DeepEqual r o ∧
      Equals DeepEqual o
             (mkResource (kunStr r) n ns opts (refBy r) vars pre suf) =
      Equals DeepEqual o r).
Proof.
  split.
  - intros r o. unfold Equals, KunstructEqual.
    rewrite andb_true_iff, ReferencesEqual_members. done.
  - intros r o n ns opts vars pre suf. done.
Qed.

End more_copies.

Section more_merge.
Context {K : Type} `{!Kunstructured K} `{!KunstructuredLaws K} {GenArgs : Type}.
Implicit Types (σ : heap K GenArgs) (r o : loc).
Implicit Types self other : Resource K GenArgs.

Lemma dataOf_insert (m d : JObject) : dataOf (<["data" := JMap d]> m) = d.
Proof. unfold dataOf. by rewrite lookup_insert_eq. Qed.

(** X18.  [Merge] is idempotent on the ["data"] entry: a second [Merge]
    with the same argument binds ["data"] in the document of the receiver
    to the mapping the first one bound it to. *)
Theorem Merge_data_idempotent σ r o self other :
  σ !! r = Some self → σ !! o = Some other →
  ∃ self1 self2,
    Merge r o σ = Some (tt, <[r := self1]> σ) ∧
    Merge r o (<[r := self1]> σ) = Some (tt, <[r := self2]> σ) ∧
    Resource_Map self2 !! "data" = Resource_Map self1 !! "data".
Proof.
  intros Hr Ho.
  destruct (Merge_ok σ r o self other Hr Ho) as (s1 & _ & _ & Hrun1).
  set (d1 := dataOf (Resource_Map self) ∪ dataOf (Resource_Map other)) in *.
  set (self1 := set_kunStr s1 (StoreMap (kunStr s1)
                  (<["data" := JMap d1]> (Map (kunStr s1))))) in *.
  assert (Hd1 : dataOf (Resource_Map self1) = d1).
  { unfold Resource_Map, self1. simpl. by rewrite Map_StoreMap, dataOf_insert. }
  exists self1. destruct (decide (r = o)) as [->|Hne].
  - assert (self = other) as -> by congruence.
    destruct (Merge_ok (<[o := self1]> σ) o o self1 self1)
      as (s2 & _ & _ & Hrun2); [apply lookup_insert_eq..|].
    rewrite insert_insert_eq in Hrun2.
    eexists. split; [exact Hrun1|]. split; [exact Hrun2|].
    unfold Resource_Map at 1. simpl. rewrite Map_StoreMap, lookup_insert_eq.
    rewrite Hd1, (idemp_L (∪)).
    unfold Resource_Map, self1. simpl.
    by rewrite Map_StoreMap, lookup_insert_eq.
  - destruct (Merge_ok (<[r := self1]> σ) r o self1 other)
      as (s2 & _ & _ & Hrun2);
      [apply lookup_insert_eq|by rewrite lookup_insert_ne|].
    rewrite insert_insert_eq in Hrun2.
    eexists. split; [exact Hrun1|]. split; [exact Hrun2|].
    unfold Resource_Map at 1. simpl. rewrite Map_StoreMap, lookup_insert_eq.
    rewrite Hd1. unfold d1. rewrite <- (assoc_L (∪)), (idemp_L (∪)).
    unfold Resource_Map at 3, self1. simpl.
    by rewrite Map_StoreMap, lookup_insert_eq.
Qed.

End more_merge.

(** *** The further properties at the sample resources *)

Lemma sameEndingSubarray_relation_witness :
  len (Some ["a"; "b"]) = len (Some ["c"; "b"]) ∧
  (sameEndingSubarray (Some ["a"; "b"]) (Some ["c"; "b"]) = Some true ↔
   elems (Some ["a"; "b"]) = elems (Some ["c"; "b"])).
Proof.
  split; [reflexivity|].
  apply (proj1 (proj2 (proj2 (proj2 sameEndingSubarray_relation)))).
  reflexivity.
Defined.

Lemma PrefixesSuffixesEquals_outermost_witness :
  let r := Sample.other in
  let o := AddNameSuffix
             (AddNamePrefix (AddNamePrefix Sample.plain "in-") "p-") "-s" in
  PrefixesSuffixesEquals r o = Some true ∧
  OutermostPrefixSuffixEquals r o = Some true.
Proof.
  split; [vm_compute; reflexivity|].
  apply (proj1 (PrefixesSuffixesEquals_outermost (K := JObject)
                  (GenArgs := Sample.GenArgs))).
  - split; discriminate.
  - split; discriminate.
  - vm_compute; reflexivity.
Defined.

Lemma OutermostPrefixSuffixEquals_equivalence_witness :
  OutermostPrefixSuffixEquals Sample.emptyStacks Sample.blankPushed = Some true ∧
  OutermostPrefixSuffixEquals Sample.blankPushed Sample.bare = Some true ∧
  OutermostPrefixSuffixEquals Sample.emptyStacks Sample.bare = Some true.
Proof.
  split; [vm_compute; reflexivity|]. split; [vm_compute; reflexivity|].
  apply (proj2 (proj2 (proj2 OutermostPrefixSuffixEquals_equivalence))
           Sample.emptyStacks Sample.blankPushed Sample.bare);
    vm_compute; reflexivity.
Defined.

Lemma ReferencesEqual_equivalence_witness :
  let r := Sample.other in
  let o := AppendRefBy Sample.other Sample.deployment in
  let q := AppendRefBy Sample.self Sample.deployment in
  ReferencesEqual r o = true ∧ ReferencesEqual o q = true ∧
  ReferencesEqual r q = true.
Proof.
  split; [vm_compute; reflexivity|]. split; [vm_compute; reflexivity|].
  apply (proj2 (proj2 ReferencesEqual_equivalence)
           Sample.other (AppendRefBy Sample.other Sample.deployment)
           (AppendRefBy Sample.self Sample.deployment));
    vm_compute; reflexivity.
Defined.

Lemma AppendRefBy_ReferencesEqual_witness :
  let r := Sample.other in
  let o := AppendRefBy Sample.self Sample.deployment in
  let id := NewResIdWithNamespace (mkGvk "" "v1" "Service") "web" "prod" in
  ReferencesEqual r o = true ∧
  ReferencesEqual (AppendRefBy r id) (AppendRefBy o id) = true.
Proof.
  split; [vm_compute; reflexivity|].
  apply (proj2 (proj2 AppendRefBy_ReferencesEqual)).
  vm_compute; reflexivity.
Defined.

Lemma writes_only_receiver_witness :
  let σ' := default ∅ (snd <$> Replace 1%positive 2%positive Sample.store) in
  Replace 1%positive 2%positive Sample.store = Some (tt, σ') ∧
  dom σ' = dom Sample.store ∧
  ∀ p, p ≠ 1%positive → σ' !! p = Sample.store !! p.
Proof.
  split; [vm_compute; reflexivity|].
  apply (writes_only_receiver Sample.store _ 1%positive 2%positive).
  left. vm_compute; reflexivity.
Defined.

Lemma Replace_same_pointer_witness :
  Sample.store !! 2%positive = Some Sample.other ∧
  ∃ self',
    Replace 2%positive 2%positive Sample.store =
    Some (tt, <[2%positive := self']> Sample.store) ∧
    facets (kunStr self') = facets (kunStr Sample.other) ∧
    self' = set_kunStr Sample.other (kunStr self').
Proof.
  split; [vm_compute; reflexivity|].
  apply (Replace_same_pointer Sample.store 2%positive Sample.other).
  vm_compute; reflexivity.
Defined.

Lemma Replace_idempotent_witness :
  (Sample.store !! 1%positive = Some Sample.self ∧
   Sample.store !! 2%positive = Some Sample.other) ∧
  ∃ self1 self2,
    Replace 1%positive 2%positive Sample.store =
    Some (tt, <[1%positive := self1]> Sample.store) ∧
    Replace 1%positive 2%positive (<[1%positive := self1]> Sample.store) =
    Some (tt, <[1%positive := self2]> Sample.store) ∧
    facets (kunStr self2) = facets (kunStr self1) ∧
    self2 = set_kunStr self1 (kunStr self2).
Proof.
  split; [split; vm_compute; reflexivity|].
  apply (Replace_idempotent Sample.store 1%positive 2%positive
           Sample.self Sample.other);
    vm_compute; reflexivity.
Defined.

Lemma Replace_aligns_witness :
  (Sample.store !! 1%positive = Some Sample.self ∧
   Sample.store !! 2%positive = Some Sample.other) ∧
  ∃ self',
    Replace 1%positive 2%positive Sample.store =
    Some (tt, <[1%positive := self']> Sample.store) ∧
    Name (CurId self') = Name (CurId Sample.other) ∧
    Namespace (CurId self') = Namespace (CurId Sample.other) ∧
    Name (OrgId self') = Name (OrgId Sample.other) ∧
    Namespace (OrgId self') = Namespace (OrgId Sample.other) ∧
    ReferencesEqual self' Sample.other = true ∧
    PrefixesSuffixesEquals self' Sample.other = Some true ∧
    OutermostPrefixSuffixEquals self' Sample.other = Some true ∧
    ∀ should : Sample.GenArgs → bool,
      NeedHashSuffix should self' = NeedHashSuffix should Sample.other.
Proof.
  split; [split; vm_compute; reflexivity|].
  apply (Replace_aligns Sample.store 1%positive 2%positive
           Sample.self Sample.other);
    vm_compute; reflexivity.
Defined.


Lemma Merge_data_idempotent_witness :
  (Sample.store !! 1%positive = Some Sample.self ∧
   Sample.store !! 2%positive = Some Sample.other) ∧
  ∃ self1 self2,
    Merge 1%positive 2%positive Sample.store =
    Some (tt, <[1%positive := self1]> Sample.store) ∧
    Merge 1%positive 2%positive (<[1%positive := self1]> Sample.store) =
    Some (tt, <[1%positive := self2]> Sample.store) ∧
    Resource_Map self2 !! "data" = Resource_Map self1 !! "data".
Proof.
  split; [split; vm_compute; reflexivity|].
  apply (Merge_data_idempotent Sample.store 1%positive 2%positive
           Sample.self Sample.other);
    vm_compute; reflexivity.
Defined.

Example DeepCopy_sample :
  (λ '(rc, σ), (rc, namePrefixes <$> σ !! rc, dom σ))
    <$> DeepCopy 2%positive Sample.store =
  Some (5%positive, Some (Some ["p-"]),
        {[ 1%positive; 2%positive; 3%positive; 4%positive; 5%positive ]}).
Proof. vm_compute. reflexivity. Qed.

Example mergeStringMaps_sample :
  mergeStringMaps [ {[ "a" := "1"; "b" := "1" ]};
                    {[ "b" := "2"; "c" := "2" ]};
                    {[ "c" := "3" ]} ] =
  {[ "a" := "1"; "b" := "2"; "c" := "3" ]}.
Proof. vm_compute. reflexivity. Qed.
